(** * An SMS / chat relay: the SMPP session glue of the bot, embedded in Rocq

    The program is one Python module.  It keeps a global smpplib client,
    a keep-alive thread, a queue that hands inbound short messages to an
    asyncio consumer, and two Telegram handlers.  This file embeds the
    module function by function and proves what it does.

    Conventions of the embedding:
    - a Python [str] is a list of code points, [bytes] a list of [byte];
    - exceptions are values of [exn]; a computation returns [Ok v] or
      [Raise e];
    - smpplib, the Telegram client and the network are outside the module:
      every call into them is answered by an environment, which says whether
      the call raises and in which state the client object is left;
    - what the module does to the outside is recorded as a list of events. *)

From Stdlib Require Import List NArith ZArith QArith Lia Bool Arith.
From Stdlib Require Import Strings.String Strings.Ascii Strings.Byte.
Import ListNotations.

Set Implicit Arguments.
Local Open Scope N_scope.

(** ** Python values *)

Definition codepoint := N.
Definition str := list codepoint.
Definition bytes := list byte.

Definition ord (a : ascii) : codepoint := N_of_ascii a.

(** A string literal of the source (ASCII only). *)
Definition lit (s : string) : str := map ord (list_ascii_of_string s).

Fixpoint str_eqb (a b : str) : bool :=
  match a, b with
  | [], [] => true
  | x :: a', y :: b' => N.eqb x y && str_eqb a' b'
  | _, _ => false
  end.

Definition byte_val (b : byte) : N := Byte.to_N b.

Definition byte_of (n : N) : byte :=
  match Byte.of_N (n mod 256) with
  | Some b => b
  | None => x00
  end.

(** The exceptions the module can meet.  All of them derive from
    [Exception]; [UnicodeEncodeError] and [UnicodeDecodeError] also derive
    from [ValueError], [UnboundLocalError] from [NameError]. *)
Inductive exn :=
| AttributeError
| UnboundLocalError
| ValueError
| UnicodeEncodeError
| UnicodeDecodeError
| QueueEmpty
| ConnectionError
| PDUError
| NetworkError
| OtherException (tag : nat).

Definition is_ValueError (e : exn) : bool :=
  match e with
  | ValueError | UnicodeEncodeError | UnicodeDecodeError => true
  | _ => false
  end.

Definition is_QueueEmpty (e : exn) : bool :=
  match e with QueueEmpty => true | _ => false end.

(** [except Exception] catches every modelled exception. *)
Definition is_Exception (e : exn) : bool := true.

Inductive Result (A : Type) :=
| Ok (v : A)
| Raise (e : exn).
Arguments Ok {A} v.
Arguments Raise {A} e.

(** ** Codecs

    [bytes.decode(enc, errors=...)] and [str.encode(enc)] of the Python
    runtime, for the three encodings the module names. *)

Inductive Errors := Strict | Ignore | Replace.

Definition REPLACEMENT : codepoint := 0xFFFD.

(** What the error handler contributes for one malformed stretch. *)
Definition on_error (errors : Errors) (rest : Result str) : Result str :=
  match errors with
  | Strict => Raise UnicodeDecodeError
  | Ignore => rest
  | Replace =>
      match rest with
      | Ok s => Ok (REPLACEMENT :: s)
      | Raise e => Raise e
      end
  end.

Definition cons_ok (c : codepoint) (rest : Result str) : Result str :=
  match rest with
  | Ok s => Ok (c :: s)
  | Raise e => Raise e
  end.

Definition is_high_surrogate (u : N) : bool := (0xD800 <=? u) && (u <=? 0xDBFF).
Definition is_low_surrogate (u : N) : bool := (0xDC00 <=? u) && (u <=? 0xDFFF).
Definition is_surrogate (u : N) : bool := (0xD800 <=? u) && (u <=? 0xDFFF).

Definition unit16 (hi lo : byte) : N := 256 * byte_val hi + byte_val lo.

Definition join_surrogates (u1 u2 : N) : codepoint :=
  0x10000 + (N.shiftl (N.land u1 0x3FF) 10 + N.land u2 0x3FF).

(** UTF-16 big endian, no byte order mark.  A malformed stretch is
    - a low surrogate standing alone: the unit is skipped;
    - a high surrogate followed by a unit that is not a low surrogate: the
      high surrogate is skipped and decoding resumes at the next unit;
    - a high surrogate with fewer than two bytes after it, or a single
      trailing byte: everything to the end of the input is skipped. *)
Fixpoint utf_16_be_decode (errors : Errors) (raw : bytes) : Result str :=
  match raw with
  | [] => Ok []
  | [_] => on_error errors (Ok [])
  | hi :: lo :: rest =>
      let u := unit16 hi lo in
      if negb (is_surrogate u) then cons_ok u (utf_16_be_decode errors rest)
      else if negb (is_high_surrogate u) then
        on_error errors (utf_16_be_decode errors rest)
      else
        match rest with
        | hi2 :: lo2 :: rest' =>
            let u2 := unit16 hi2 lo2 in
            if is_low_surrogate u2
            then cons_ok (join_surrogates u u2) (utf_16_be_decode errors rest')
            else on_error errors (utf_16_be_decode errors rest)
        | _ => on_error errors (Ok [])
        end
  end.

(** latin-1 maps every byte to the code point of the same number. *)
Definition latin_1_decode (errors : Errors) (raw : bytes) : Result str :=
  Ok (map byte_val raw).

(** ascii accepts the bytes below 128. *)
Fixpoint ascii_decode (errors : Errors) (raw : bytes) : Result str :=
  match raw with
  | [] => Ok []
  | b :: rest =>
      if byte_val b <? 128 then cons_ok (byte_val b) (ascii_decode errors rest)
      else on_error errors (ascii_decode errors rest)
  end.

Definition is_scalar (c : codepoint) : bool :=
  (c <=? 0x10FFFF) && negb (is_surrogate c).

Definition encode_unit (u : N) : bytes := [byte_of (u / 256); byte_of u].

(** [str.encode('utf-16-be')]: strict; a surrogate code point cannot be
    encoded. *)
Fixpoint utf_16_be_encode (s : str) : Result bytes :=
  match s with
  | [] => Ok []
  | c :: rest =>
      if negb (is_scalar c) then Raise UnicodeEncodeError
      else
        match utf_16_be_encode rest with
        | Raise e => Raise e
        | Ok tl =>
            if c <? 0x10000 then Ok (encode_unit c ++ tl)
            else
              let v := c - 0x10000 in
              Ok (encode_unit (0xD800 + v / 1024)
                  ++ encode_unit (0xDC00 + v mod 1024) ++ tl)
        end
  end.

(** ** Objects of the module *)

(** A dynamically typed attribute value of an inbound PDU. *)
Inductive value :=
| VNone
| VInt (z : Z)
| VStr (s : str)
| VBytes (b : bytes).

(** An inbound PDU as the receive callback sees it: an object whose
    attributes may be missing ([None] here) or hold any value. *)
Module Pdu.
Record t := mk {
  command : option value;
  source_addr : option value;
  short_message : option value;
  data_coding : option value
}.
End Pdu.

(** [smpplib.consts.SMPP_CLIENT_STATE_*]. *)
Inductive ClientState := CLOSED | OPEN | BOUND_TX | BOUND_RX | BOUND_TRX.

Definition ClientState_eqb (a b : ClientState) : bool :=
  match a, b with
  | CLOSED, CLOSED | OPEN, OPEN | BOUND_TX, BOUND_TX
  | BOUND_RX, BOUND_RX | BOUND_TRX, BOUND_TRX => true
  | _, _ => false
  end.

(** [state in [...]]. *)
Definition state_in (s : ClientState) (l : list ClientState) : bool :=
  existsb (ClientState_eqb s) l.

(** [smpplib.consts.SMPP_TON_INTL] and [SMPP_MSGMODE_DEFAULT]. *)
Definition SMPP_TON_INTL : N := 1.
Definition SMPP_MSGMODE_DEFAULT : N := 0.

(** The keyword arguments of [client.send_message]. *)
Record SubmitArgs := {
  source_addr_ton : N;
  source_addr : str;
  dest_addr_ton : N;
  destination_addr : str;
  short_message : bytes;
  data_coding : N;
  esm_class : N
}.

(** The smpplib client object the global [client] refers to. *)
Record Client := { handle : nat; state : ClientState }.

Inductive Level := DEBUG | INFO | WARNING | ERROR.

(** The log calls of the module, one constructor per call site, carrying
    the values the message interpolates. *)
Inductive LogRecord :=
| log_connected
| log_connect_failed (e : exn)
| log_probe_sent
| log_keep_alive_reconnect
| log_keep_alive_failed (e : exn)
| log_send_reconnect
| log_sms_sent (phone_number message : str)
| log_sms_failed (e : exn)
| log_sms_received (phone_number message_content : str) (data_coding : value)
                   (raw : bytes)
| log_incoming_failed (e : exn) (phone_number : str) (raw : bytes)
| log_to_telegram (phone_number message_content : str).

(** The texts the chat handlers reply with. *)
Inductive ReplyText :=
| reply_welcome
| reply_sent (message phone_number : str)
| reply_send_failed
| reply_format_error.

(** Calls on the smpplib client. *)
Inductive SmppOp :=
| NewClient           (* smpplib.client.Client(SMPP_SERVER, SMPP_PORT, timeout=30) *)
| Connect
| BindTransceiver
| SetHandler
| StartListen         (* threading.Thread(target=client.listen, daemon=True).start() *)
| Unbind
| Disconnect
| EnquireLink         (* client.send_pdu(make_pdu('enquire_link', client=client)) *)
| SendMessage (kw : SubmitArgs).

(** Calls on the chat platform. *)
Inductive ChatOp :=
| ReplyTextOp (r : ReplyText)
| BotSendMessage (chat_id : str) (phone_number message_content : str).

(** What the module does to the outside, with the exception the call
    raised, if any. *)
Inductive Event :=
| ESmpp (h : nat) (op : SmppOp) (raised : option exn)
| EChat (op : ChatOp) (raised : option exn)
| ELog (l : Level) (r : LogRecord)
| ESleep (seconds : Q)
| EQueueWait (timeout : Q).

(** The answer of the environment to one outside call. *)
Record Answer := { raised : option exn; state_after : ClientState }.

Definition Env := nat -> Answer.

(** The module's globals, and the number of outside calls made so far. *)
Record World := {
  client : option Client;
  fresh : nat;
  message_queue : list (str * str);
  unfinished_tasks : nat;
  calls : nat
}.

Definition initial_world : World :=
  {| client := None; fresh := 0%nat; message_queue := [];
     unfinished_tasks := 0%nat; calls := 0%nat |}.

(** ** The monad of the embedding: globals, exceptions and events *)

Definition M (A : Type) : Type := World -> Result A * World * list Event.

Definition ret {A} (v : A) : M A := fun w => (Ok v, w, []).

Definition raise {A} (e : exn) : M A := fun w => (Raise e, w, []).

Definition bind {A B} (m : M A) (k : A -> M B) : M B := fun w =>
  match m w with
  | (Ok v, w1, t1) => let '(r, w2, t2) := k v w1 in (r, w2, t1 ++ t2)
  | (Raise e, w1, t1) => (Raise e, w1, t1)
  end.

Notation "x <- m ;; k" := (bind m (fun x => k))
  (at level 61, m at next level, right associativity).
Notation "m ;; k" := (bind m (fun _ => k))
  (at level 61, right associativity).

(** [try: body except C as e: handler e], where [catches] tells which
    exceptions are instances of [C]. *)
Definition try_except {A} (body : M A) (catches : exn -> bool)
                      (handler : exn -> M A) : M A := fun w =>
  match body w with
  | (Ok v, w1, t1) => (Ok v, w1, t1)
  | (Raise e, w1, t1) =>
      if catches e
      then let '(r, w2, t2) := handler e w1 in (r, w2, t1 ++ t2)
      else (Raise e, w1, t1)
  end.

Definition lift {A} (r : Result A) : M A := fun w => (r, w, []).

Definition emit (ev : Event) : M unit := fun w => (Ok tt, w, [ev]).

Definition logger (l : Level) (r : LogRecord) : M unit := emit (ELog l r).

Definition sleep (seconds : Q) : M unit := emit (ESleep seconds).

Definition get_client : M (option Client) := fun w => (Ok (client w), w, []).

Definition set_client (c : option Client) : M unit := fun w =>
  (Ok tt,
   {| client := c; fresh := fresh w; message_queue := message_queue w;
      unfinished_tasks := unfinished_tasks w; calls := calls w |}, []).

Definition outcome (a : Answer) : Result unit :=
  match raised a with
  | Some e => Raise e
  | None => Ok tt
  end.

Definition trace {A} (x : Result A * World * list Event) : list Event := snd x.
Definition world {A} (x : Result A * World * list Event) : World := snd (fst x).
Definition result {A} (x : Result A * World * list Event) : Result A := fst (fst x).

(** [queue.Queue]: [put] appends on the right, [get] pops on the left;
    [put] counts an unfinished task and [task_done] takes one off, raising
    [ValueError] when there is none. *)
Definition queue_put (item : str * str) : M unit := fun w =>
  (Ok tt,
   {| client := client w; fresh := fresh w;
      message_queue := message_queue w ++ [item];
      unfinished_tasks := S (unfinished_tasks w); calls := calls w |}, []).

Definition queue_get (timeout : Q) : M (str * str) := fun w =>
  match message_queue w with
  | [] => (Raise QueueEmpty, w, [EQueueWait timeout])
  | item :: rest =>
      (Ok item,
       {| client := client w; fresh := fresh w; message_queue := rest;
          unfinished_tasks := unfinished_tasks w; calls := calls w |}, [])
  end.

Definition queue_task_done : M unit := fun w =>
  match unfinished_tasks w with
  | O => (Raise ValueError, w, [])
  | S n =>
      (Ok tt,
       {| client := client w; fresh := fresh w;
          message_queue := message_queue w;
          unfinished_tasks := n; calls := calls w |}, [])
  end.

(** [s.split(' ', 1)]. *)
Fixpoint split_space_1 (s : str) : list str :=
  match s with
  | [] => [[]]
  | c :: rest =>
      if c =? 32 then [[]; rest]
      else
        match split_space_1 rest with
        | first :: others => (c :: first) :: others
        | [] => [[c]]
        end
  end.

(** [a, b = l]. *)
Definition unpack_2 (l : list str) : Result (str * str) :=
  match l with
  | [a; b] => Ok (a, b)
  | _ => Raise ValueError
  end.

(** [v == 'literal'] and [v == n]: values of different types are unequal. *)
Definition eq_str (v : value) (s : str) : bool :=
  match v with
  | VStr s' => str_eqb s' s
  | _ => false
  end.

Definition eq_int (v : value) (n : Z) : bool :=
  match v with
  | VInt z => Z.eqb z n
  | _ => false
  end.

(** [v.decode(...)]: only [bytes] has the method. *)
Definition decode_method (v : value) (codec : Errors -> bytes -> Result str)
                         (errors : Errors) : Result str :=
  match v with
  | VBytes b => codec errors b
  | _ => Raise AttributeError
  end.

(** [getattr(obj, name, default)]. *)
Definition getattr (attribute : option value) (default : value) : value :=
  match attribute with
  | Some v => v
  | None => default
  end.

(** The choice of decoding in [handle_incoming_sms]. *)
Definition decode_payload (data_coding raw_message : value) : Result str :=
  if eq_int data_coding 0 then decode_method raw_message latin_1_decode Ignore
  else if eq_int data_coding 8 then decode_method raw_message utf_16_be_decode Ignore
  else decode_method raw_message latin_1_decode Ignore.

(** The local variables of [handle_incoming_sms] that its [except] clause
    reads; [None] is a name not bound yet. *)
Record Locals := { phone_number : option str; raw_message : option value }.

Definition no_locals : Locals := {| phone_number := None; raw_message := None |}.

(** The [try] block of [handle_incoming_sms]: how it ends, and the local
    variables at that point. *)
Definition incoming_try (pdu : Pdu.t) : M (Locals * Result unit) := fun w =>
  match Pdu.command pdu with
  | None => (Ok (no_locals, Raise AttributeError), w, [])
  | Some cmd =>
      if negb (eq_str cmd (lit "deliver_sm")) then (Ok (no_locals, Ok tt), w, [])
      else
        match Pdu.source_addr pdu with
        | None => (Ok (no_locals, Raise AttributeError), w, [])
        | Some src =>
            match decode_method src ascii_decode Ignore with
            | Raise e => (Ok (no_locals, Raise e), w, [])
            | Ok phone =>
                let l1 := {| phone_number := Some phone; raw_message := None |} in
                match Pdu.short_message pdu with
                | None => (Ok (l1, Raise AttributeError), w, [])
                | Some raw =>
                    let l2 := {| phone_number := Some phone;
                                 raw_message := Some raw |} in
                    let coding := getattr (Pdu.data_coding pdu) (VInt 0) in
                    match decode_payload coding raw, raw with
                    | Ok content, VBytes b =>
                        (logger INFO (log_sms_received phone content coding b) ;;
                         queue_put (phone, content) ;;
                         ret (l2, Ok tt)) w
                    | Ok _, _ => (Ok (l2, Raise AttributeError), w, [])
                    | Raise e, _ => (Ok (l2, Raise e), w, [])
                    end
                end
            end
        end
  end.

(** The [except Exception as e] clause of [handle_incoming_sms]: the log
    message reads [phone_number] and calls [raw_message.hex()]. *)
Definition incoming_except (l : Locals) (e : exn) : M unit :=
  match phone_number l with
  | None => raise UnboundLocalError
  | Some phone =>
      match raw_message l with
      | None => raise UnboundLocalError
      | Some (VBytes b) => logger ERROR (log_incoming_failed e phone b)
      | Some _ => raise AttributeError
      end
  end.

Definition handle_incoming_sms (pdu : Pdu.t) : M unit :=
  ended <- incoming_try pdu ;;
  match snd ended with
  | Ok _ => ret tt
  | Raise e =>
      if is_Exception e then incoming_except (fst ended) e else raise e
  end.

(** ** The functions that talk to the outside *)

Section Program.

(** The environment, and the configuration constants of the module. *)
Variable env : Env.
Variable SMPP_PHONE_NUMBER : str.
Variable TELEGRAM_CHAT_ID : str.

Definition count_call (w : World) (c : option Client) (f : nat) : World :=
  {| client := c; fresh := f; message_queue := message_queue w;
     unfinished_tasks := unfinished_tasks w; calls := S (calls w) |}.

(** [client = smpplib.client.Client(...)]: a new object, in state
    [CLOSED], becomes the global [client] when the constructor returns. *)
Definition new_client : M unit := fun w =>
  let a := env (calls w) in
  match raised a with
  | Some e =>
      (Raise e, count_call w (client w) (fresh w),
       [ESmpp (fresh w) NewClient (Some e)])
  | None =>
      (Ok tt,
       count_call w (Some {| handle := fresh w; state := CLOSED |})
                  (S (fresh w)),
       [ESmpp (fresh w) NewClient None])
  end.

(** A method call on the global [client]. *)
Definition smpp (op : SmppOp) : M unit := fun w =>
  match client w with
  | None => (Raise AttributeError, w, [])
  | Some c =>
      let a := env (calls w) in
      (outcome a,
       count_call w (Some {| handle := handle c; state := state_after a |})
                  (fresh w),
       [ESmpp (handle c) op (raised a)])
  end.

(** A call on the chat platform. *)
Definition chat (op : ChatOp) : M unit := fun w =>
  let a := env (calls w) in
  (outcome a, count_call w (client w) (fresh w), [EChat op (raised a)]).

Definition connect_smpp : M (option Client) :=
  try_except
    (new_client ;;
     smpp Connect ;;
     smpp BindTransceiver ;;
     smpp SetHandler ;;
     smpp StartListen ;;
     logger INFO log_connected ;;
     get_client)
    is_Exception
    (fun e => logger ERROR (log_connect_failed e) ;; raise e).

(** [client and client.state in states]. *)
Definition client_state_in (states : list ClientState) : M bool :=
  c <- get_client ;;
  match c with
  | Some cl => ret (state_in (state cl) states)
  | None => ret false
  end.

(** The [try] block of one turn of the keep-alive loop. *)
Definition keep_alive_try : M unit :=
  alive <- client_state_in [OPEN; BOUND_TRX] ;;
  if alive then
    smpp EnquireLink ;;
    logger DEBUG log_probe_sent
  else
    logger WARNING log_keep_alive_reconnect ;;
    c <- get_client ;;
    match c with
    | Some _ => smpp Unbind ;; smpp Disconnect
    | None => ret tt
    end ;;
    c' <- connect_smpp ;;
    set_client c'.

(** One turn of the [while True] loop of [smpp_keep_alive]. *)
Definition keep_alive_tick : M unit :=
  try_except keep_alive_try is_Exception
    (fun e => logger ERROR (log_keep_alive_failed e) ;; sleep 5) ;;
  sleep 30.

(** The loop, cut after [ticks] turns: [Ok tt] says the thread is still
    in the loop, [Raise e] that [e] left it. *)
Fixpoint smpp_keep_alive (ticks : nat) : M unit :=
  match ticks with
  | O => ret tt
  | S n => keep_alive_tick ;; smpp_keep_alive n
  end.

Definition send_sms (phone_number message : str) : M bool :=
  try_except
    (bound <- client_state_in [BOUND_TRX] ;;
     (if negb bound then
        logger WARNING log_send_reconnect ;;
        c <- connect_smpp ;;
        set_client c
      else ret tt) ;;
     message_bytes <- lift (utf_16_be_encode message) ;;
     smpp (SendMessage
             {| source_addr_ton := SMPP_TON_INTL;
                source_addr := SMPP_PHONE_NUMBER;
                dest_addr_ton := SMPP_TON_INTL;
                destination_addr := phone_number;
                short_message := message_bytes;
                data_coding := 8;
                esm_class := SMPP_MSGMODE_DEFAULT |}) ;;
     logger INFO (log_sms_sent phone_number message) ;;
     ret true)
    is_Exception
    (fun e => logger ERROR (log_sms_failed e) ;; ret false).

Definition start : M unit := chat (ReplyTextOp reply_welcome).

Definition handle_message (user_message : str) : M unit :=
  try_except
    (parts <- lift (unpack_2 (split_space_1 user_message)) ;;
     let '(phone_number, message) := parts in
     success <- send_sms phone_number message ;;
     if success
     then chat (ReplyTextOp (reply_sent message phone_number))
     else chat (ReplyTextOp reply_send_failed))
    is_ValueError
    (fun _ => chat (ReplyTextOp reply_format_error)).

(** One turn of the [while True] loop of [process_incoming_messages]. *)
Definition process_incoming_turn : M unit :=
  try_except
    (item <- queue_get 1 ;;
     let '(phone_number, message_content) := item in
     logger DEBUG (log_to_telegram phone_number message_content) ;;
     chat (BotSendMessage TELEGRAM_CHAT_ID phone_number message_content) ;;
     queue_task_done)
    is_QueueEmpty
    (fun _ => sleep (1 # 10)).

(** The loop, cut after [turns] turns: [Ok tt] says the task is still in
    the loop, [Raise e] that [e] ended the coroutine. *)
Fixpoint process_incoming_messages (turns : nat) : M unit :=
  match turns with
  | O => ret tt
  | S n => process_incoming_turn ;; process_incoming_messages n
  end.

End Program.

(** ** Reading a run *)

Definition is_reconnect (ev : Event) : bool :=
  match ev with ESmpp _ NewClient _ => true | _ => false end.

Definition is_send (ev : Event) : bool :=
  match ev with ESmpp _ (SendMessage _) _ => true | _ => false end.

Definition is_probe (ev : Event) : bool :=
  match ev with ESmpp _ EnquireLink _ => true | _ => false end.

Definition is_unbind (ev : Event) : bool :=
  match ev with ESmpp _ Unbind _ => true | _ => false end.

Definition is_disconnect (ev : Event) : bool :=
  match ev with ESmpp _ Disconnect _ => true | _ => false end.

(** An outside call that raised. *)
Definition failed (ev : Event) : bool :=
  match ev with
  | ESmpp _ _ (Some _) | EChat _ (Some _) => true
  | _ => false
  end.

Definition count (p : Event -> bool) (t : list Event) : nat :=
  List.length (filter p t).

Definition no_failure (t : list Event) : bool :=
  forallb (fun ev => negb (failed ev)) t.

(** A text [str.encode] accepts: code points of the Unicode range that are
    not surrogates. *)
Definition valid_text (s : str) : bool := forallb is_scalar s.

(** The test of [send_sms]: there is a client and it is bound as a
    transceiver. *)
Definition bound (w : World) : bool :=
  match client w with
  | Some c => state_in (state c) [BOUND_TRX]
  | None => false
  end.

(** The test of [smpp_keep_alive]: there is a client and it is open or
    bound as a transceiver. *)
Definition alive (w : World) : bool :=
  match client w with
  | Some c => state_in (state c) [OPEN; BOUND_TRX]
  | None => false
  end.

(** The sleep that paces the keep-alive loop, and the back-off after an
    error. *)
Definition is_period (ev : Event) : bool :=
  match ev with ESleep q => Qeq_bool q 30 | _ => false end.

Definition is_backoff (ev : Event) : bool :=
  match ev with ESleep q => Qeq_bool q 5 | _ => false end.

(** The warning that opens the reconnecting branch of the keep-alive loop. *)
Definition is_reconnect_branch (ev : Event) : bool :=
  match ev with
  | ELog WARNING log_keep_alive_reconnect => true
  | _ => false
  end.

Definition is_failed_probe (ev : Event) : bool :=
  match ev with ESmpp _ EnquireLink (Some _) => true | _ => false end.

(** The world after [client.unbind()] and [client.disconnect()] returned. *)
Definition torn_down (env : Env) (w : World) (hd : nat) : World :=
  {| client := Some {| handle := hd;
                       state := state_after (env (S (calls w))) |};
     fresh := fresh w; message_queue := message_queue w;
     unfinished_tasks := unfinished_tasks w; calls := S (S (calls w)) |}.

(** ** The relay: listener thread and consumer task side by side

    [queue.Queue] serialises [put] and [get], so a run of the two threads
    is an interleaving of callback invocations and consumer turns. *)

Inductive Action :=
| Deliver (pdu : Pdu.t)      (* the listener thread invokes the callback *)
| Consume.                   (* the consumer task takes one turn of its loop *)

(** The globals, the events so far, and the exception that ended the
    consumer coroutine, if one did. *)
Definition RelayState : Type := World * list Event * option exn.

Definition relay_step (env : Env) (CHAT : str) (s : RelayState) (a : Action)
  : RelayState :=
  let '(w, t, ended) := s in
  match a with
  | Deliver pdu =>
      let '(_, w', t') := handle_incoming_sms pdu w in (w', t ++ t', ended)
  | Consume =>
      match ended with
      | Some _ => s
      | None =>
          let '(r, w', t') := process_incoming_turn env CHAT w in
          (w', t ++ t',
           match r with
           | Ok _ => None
           | Raise e => Some e
           end)
      end
  end.

Definition relay (env : Env) (CHAT : str) (acts : list Action) (s : RelayState)
  : RelayState :=
  fold_left (relay_step env CHAT) acts s.

(** The messages the callback logged as received, in order. *)
Fixpoint received (t : list Event) : list (str * str) :=
  match t with
  | [] => []
  | ELog INFO (log_sms_received phone content _ _) :: rest =>
      (phone, content) :: received rest
  | _ :: rest => received rest
  end.

(** The messages handed to [bot.send_message], in order. *)
Fixpoint forwarded (t : list Event) : list (str * str) :=
  match t with
  | [] => []
  | EChat (BotSendMessage _ phone content) _ :: rest =>
      (phone, content) :: forwarded rest
  | _ :: rest => forwarded rest
  end.

Definition is_error_log (ev : Event) : bool :=
  match ev with ELog ERROR _ => true | _ => false end.

Definition relay_world (s : RelayState) : World := fst (fst s).
Definition relay_trace (s : RelayState) : list Event := snd (fst s).
Definition relay_ended (s : RelayState) : option exn := snd s.

(** The state in which the module starts the two threads. *)
Definition relay_start : RelayState := (initial_world, [], None).

(** ** Sample environments and inputs *)

(** Every outside call returns and leaves the client bound. *)
Definition env_ok : Env :=
  fun _ => {| raised := None; state_after := BOUND_TRX |}.

(** Every outside call raises [ConnectionError]; the client keeps
    reporting the bound state. *)
Definition env_broken_pipe : Env :=
  fun _ => {| raised := Some ConnectionError; state_after := BOUND_TRX |}.

(** Every outside call raises [NetworkError]. *)
Definition env_network_down : Env :=
  fun _ => {| raised := Some NetworkError; state_after := CLOSED |}.

(** A world in which client 0 is bound as a transceiver. *)
Definition bound_world : World :=
  {| client := Some {| handle := 0%nat; state := BOUND_TRX |};
     fresh := 1%nat; message_queue := []; unfinished_tasks := 0%nat;
     calls := 0%nat |}.

Definition sender : str := lit "8613800000000".
Definition chat_id : str := lit "42".

Definition ascii_bytes (s : string) : bytes :=
  map (fun a => byte_of (N_of_ascii a)) (list_ascii_of_string s).

Definition deliver_sm (src : string) (raw : bytes) (coding : option value) : Pdu.t :=
  {| Pdu.command := Some (VStr (lit "deliver_sm"));
     Pdu.source_addr := Some (VBytes (ascii_bytes src));
     Pdu.short_message := Some (VBytes raw);
     Pdu.data_coding := coding |}.

(** A [deliver_sm] frame cut short before its source address: smpplib
    leaves the attributes it did not parse at [None]. *)
Definition truncated_deliver_sm : Pdu.t :=
  {| Pdu.command := Some (VStr (lit "deliver_sm"));
     Pdu.source_addr := Some VNone;
     Pdu.short_message := Some VNone;
     Pdu.data_coding := Some VNone |}.

(** A frame of another kind. *)
Definition enquire_link_resp : Pdu.t :=
  {| Pdu.command := Some (VStr (lit "enquire_link_resp"));
     Pdu.source_addr := None;
     Pdu.short_message := None;
     Pdu.data_coding := None |}.

(** Two inbound messages wait in the queue. *)
Definition two_queued : World :=
  {| client := None; fresh := 0%nat;
     message_queue := [(lit "15559876543", lit "Hi");
                       (lit "15559876543", lit "again")];
     unfinished_tasks := 2%nat; calls := 0%nat |}.

(** The arguments [send_sms] passes for the body "Hi". *)
Definition hi_args : SubmitArgs :=
  {| source_addr_ton := SMPP_TON_INTL;
     source_addr := sender;
     dest_addr_ton := SMPP_TON_INTL;
     destination_addr := lit "15551234567";
     short_message := [x00; x48; x00; x69];
     data_coding := 8;
     esm_class := SMPP_MSGMODE_DEFAULT |}.

(** ** Start-up and shutdown

    [main] and [cleanup] do things the functions above do not: they
    register an exit hook, start the keep-alive thread, set up the chat
    application and poll.  Their runs record these next to the events of
    the functions they call. *)

Inductive HandlerKind :=
| StartCommand            (* CommandHandler("start", start) *)
| TextMessage.            (* MessageHandler(filters.TEXT & ~filters.COMMAND, handle_message) *)

Inductive Lifecycle :=
| Base (ev : Event)
| AtexitRegister
| StartKeepAlive (raised : option exn)
| BuildApplication (raised : option exn)
| AddHandler (h : HandlerKind) (raised : option exn)
| CreateConsumerTask (raised : option exn)
| LogStarted
| RunPolling (raised : option exn)
| LogDisconnected
| LogCleanupFailed (e : exn).

Definition L (A : Type) : Type := World -> Result A * World * list Lifecycle.

Definition retL {A} (v : A) : L A := fun w => (Ok v, w, []).

Definition bindL {A B} (m : L A) (k : A -> L B) : L B := fun w =>
  match m w with
  | (Ok v, w1, t1) => let '(r, w2, t2) := k v w1 in (r, w2, t1 ++ t2)
  | (Raise e, w1, t1) => (Raise e, w1, t1)
  end.

Definition try_exceptL {A} (body : L A) (catches : exn -> bool)
                       (handler : exn -> L A) : L A := fun w =>
  match body w with
  | (Ok v, w1, t1) => (Ok v, w1, t1)
  | (Raise e, w1, t1) =>
      if catches e
      then let '(r, w2, t2) := handler e w1 in (r, w2, t1 ++ t2)
      else (Raise e, w1, t1)
  end.

(** A function of the module run inside [main] or [cleanup]. *)
Definition base {A} (m : M A) : L A := fun w =>
  let '(r, w1, t) := m w in (r, w1, map Base t).

Definition emitL (ev : Lifecycle) : L unit := fun w => (Ok tt, w, [ev]).

(** A call into the threading, asyncio or telegram library. *)
Definition outside (env : Env) (ev : option exn -> Lifecycle) : L unit :=
  fun w =>
    let a := env (calls w) in
    (outcome a,
     {| client := client w; fresh := fresh w;
        message_queue := message_queue w;
        unfinished_tasks := unfinished_tasks w; calls := S (calls w) |},
     [ev (raised a)]).


Definition main (env : Env) : L unit :=
  bindL (emitL AtexitRegister) (fun _ =>
  bindL (base (connect_smpp env)) (fun c =>
  bindL (base (set_client c)) (fun _ =>
  bindL (outside env StartKeepAlive) (fun _ =>
  bindL (outside env BuildApplication) (fun _ =>
  bindL (outside env (AddHandler StartCommand)) (fun _ =>
  bindL (outside env (AddHandler TextMessage)) (fun _ =>
  bindL (outside env CreateConsumerTask) (fun _ =>
  bindL (emitL LogStarted) (fun _ =>
  outside env RunPolling))))))))).

(** The steps of [main] after the first connect, without their outcome. *)
Inductive Step :=
| SKeepAlive | SBuild | SHandler (h : HandlerKind) | STask | SPolling.

Fixpoint launched (t : list Lifecycle) : list (Step * option exn) :=
  match t with
  | [] => []
  | StartKeepAlive o :: rest => (SKeepAlive, o) :: launched rest
  | BuildApplication o :: rest => (SBuild, o) :: launched rest
  | AddHandler h o :: rest => (SHandler h, o) :: launched rest
  | CreateConsumerTask o :: rest => (STask, o) :: launched rest
  | RunPolling o :: rest => (SPolling, o) :: launched rest
  | _ :: rest => launched rest
  end.

Definition launch_order : list Step :=
  [SKeepAlive; SBuild; SHandler StartCommand; SHandler TextMessage; STask;
   SPolling].

(** The module's events in a run of [main] or [cleanup]. *)
Fixpoint base_events (t : list Lifecycle) : list Event :=
  match t with
  | [] => []
  | Base ev :: rest => ev :: base_events rest
  | _ :: rest => base_events rest
  end.

Definition resultL {A} (x : Result A * World * list Lifecycle) : Result A :=
  fst (fst x).
Definition worldL {A} (x : Result A * World * list Lifecycle) : World :=
  snd (fst x).
Definition traceL {A} (x : Result A * World * list Lifecycle) : list Lifecycle :=
  snd x.

(** ** Reading a run, continued *)

(** The calls made on smpplib clients, in order. *)
Fixpoint smpp_calls (t : list Event) : list (nat * SmppOp * option exn) :=
  match t with
  | [] => []
  | ESmpp hd op o :: rest => (hd, op, o) :: smpp_calls rest
  | _ :: rest => smpp_calls rest
  end.

(** The event of a recorded call. *)
Definition call_event (c : nat * SmppOp * option exn) : Event :=
  ESmpp (fst (fst c)) (snd (fst c)) (snd c).

Definition is_log (ev : Event) : bool :=
  match ev with ELog _ _ => true | _ => false end.

(** The calls of [connect_smpp], in the order of the source. *)
Definition connect_steps : list SmppOp :=
  [NewClient; Connect; BindTransceiver; SetHandler; StartListen].

(** The constructor returns, every later call raises [ConnectionError]
    and leaves the client closed. *)
Definition env_connect_refused : Env :=
  fun k =>
    match k with
    | O => {| raised := None; state_after := CLOSED |}
    | S _ => {| raised := Some ConnectionError; state_after := CLOSED |}
    end.

(** A world in which client 0 is closed. *)
Definition closed_world : World :=
  {| client := Some {| handle := 0%nat; state := CLOSED |};
     fresh := 1%nat; message_queue := []; unfinished_tasks := 0%nat;
     calls := 0%nat |}.

(** A computation that leaves the relay queue alone. *)
Definition keeps_queue {A} (m : M A) : Prop :=
  forall w,
    message_queue (world (m w)) = message_queue w /\
    unfinished_tasks (world (m w)) = unfinished_tasks w.

(** A queued message the sending side can take back: the number is ASCII
    and the text can be encoded. *)
Definition relayable (m : str * str) : bool :=
  forallb (fun c => c <? 128) (fst m) && valid_text (snd m).

(** The code points outside the basic plane, which take two units. *)
Definition supplementary (s : str) : list codepoint :=
  filter (fun c => 0x10000 <=? c) s.


(** An environment in which every outside call raises and leaves the
    client in a state that is neither open nor bound. *)
Definition unreachable (env : Env) : Prop :=
  forall k,
    raised (env k) <> None /\
    state_in (state_after (env k)) [OPEN; BOUND_TRX] = false.

(** * Properties *)

(** ** Bytes and 16-bit units *)

Lemma byte_val_lt (b : byte) : byte_val b < 256.
Proof.
  unfold byte_val. pose proof (Byte.to_N_bounded b). lia.
Qed.

Lemma byte_val_of_mod (n : N) : byte_val (byte_of n) = n mod 256.
Proof.
  unfold byte_val, byte_of.
  assert (Hlt : n mod 256 < 256) by (apply N.mod_lt; lia).
  destruct (Byte.of_N (n mod 256)) as [b|] eqn:E.
  - now apply Byte.to_of_N.
  - apply Byte.of_N_None_iff in E. lia.
Qed.

Lemma unit16_encode (u : N) :
  u < 65536 -> unit16 (byte_of (u / 256)) (byte_of u) = u.
Proof.
  intros Hu. unfold unit16. rewrite !byte_val_of_mod.
  assert (u / 256 < 256) by (apply N.Div0.div_lt_upper_bound; lia).
  rewrite (N.mod_small (u / 256)) by assumption.
  pose proof (N.div_mod u 256). lia.
Qed.

Lemma unit16_lt (hi lo : byte) : unit16 hi lo < 65536.
Proof.
  unfold unit16. pose proof (byte_val_lt hi). pose proof (byte_val_lt lo). lia.
Qed.

Lemma join_split (q r : N) :
  q < 1024 -> r < 1024 ->
  join_surrogates (0xD800 + q) (0xDC00 + r) = 0x10000 + (1024 * q + r).
Proof.
  intros Hq Hr. unfold join_surrogates.
  change 0x3FF with (N.ones 10). rewrite !N.land_ones, N.shiftl_mul_pow2.
  change (2 ^ 10) with 1024.
  replace ((0xD800 + q) mod 1024) with q.
  2:{ change 0xD800 with (54 * 1024).
      rewrite N.add_comm, N.Div0.mod_add. symmetry. now apply N.mod_small. }
  replace ((0xDC00 + r) mod 1024) with r.
  2:{ change 0xDC00 with (55 * 1024).
      rewrite N.add_comm, N.Div0.mod_add. symmetry. now apply N.mod_small. }
  lia.
Qed.

Lemma high_unit (q : N) :
  q < 1024 ->
  is_surrogate (0xD800 + q) = true /\ is_high_surrogate (0xD800 + q) = true.
Proof.
  intros Hq. unfold is_surrogate, is_high_surrogate.
  split; apply andb_true_iff; split; apply N.leb_le; lia.
Qed.

Lemma low_unit (r : N) : r < 1024 -> is_low_surrogate (0xDC00 + r) = true.
Proof.
  intros Hr. unfold is_low_surrogate.
  apply andb_true_iff; split; apply N.leb_le; lia.
Qed.

(** The defining equation of the decoder on an input of two bytes or more. *)
Lemma utf_16_be_decode_unit errors hi lo rest :
  utf_16_be_decode errors (hi :: lo :: rest) =
  if negb (is_surrogate (unit16 hi lo))
  then cons_ok (unit16 hi lo) (utf_16_be_decode errors rest)
  else if negb (is_high_surrogate (unit16 hi lo))
  then on_error errors (utf_16_be_decode errors rest)
  else match rest with
       | hi2 :: lo2 :: rest' =>
           if is_low_surrogate (unit16 hi2 lo2)
           then cons_ok (join_surrogates (unit16 hi lo) (unit16 hi2 lo2))
                        (utf_16_be_decode errors rest')
           else on_error errors (utf_16_be_decode errors rest)
       | _ => on_error errors (Ok [])
       end.
Proof. reflexivity. Qed.

Lemma Ok_inj {A} (a b : A) : Ok a = Ok b -> a = b.
Proof. intros E. now injection E. Qed.

Lemma utf_16_be_encode_cons c rest :
  utf_16_be_encode (c :: rest) =
  if negb (is_scalar c) then Raise UnicodeEncodeError
  else match utf_16_be_encode rest with
       | Raise e => Raise e
       | Ok tl =>
           if c <? 0x10000 then Ok (encode_unit c ++ tl)
           else Ok (encode_unit (0xD800 + (c - 0x10000) / 1024)
                    ++ encode_unit (0xDC00 + (c - 0x10000) mod 1024) ++ tl)
       end.
Proof. reflexivity. Qed.

(** What [str.encode('utf-16-be')] produces decodes back to the string,
    under every error mode. *)
Lemma utf_16_be_roundtrip errors (s : str) :
  forall b, utf_16_be_encode s = Ok b -> utf_16_be_decode errors b = Ok s.
Proof.
  induction s as [|c s IH]; intros b Hb.
  - inversion Hb. reflexivity.
  - rewrite utf_16_be_encode_cons in Hb.
    destruct (is_scalar c) eqn:Hsc; cbv beta iota delta [negb] in Hb; [|discriminate].
    destruct (utf_16_be_encode s) as [tl|e]; [|discriminate].
    specialize (IH tl eq_refl).
    unfold is_scalar, is_surrogate in Hsc.
    apply andb_true_iff in Hsc. destruct Hsc as [Hmax Hns].
    apply N.leb_le in Hmax. apply negb_true_iff in Hns.
    destruct (c <? 0x10000) eqn:Hbmp; apply Ok_inj in Hb; subst b.
    + apply N.ltb_lt in Hbmp.
      unfold encode_unit. cbn [app].
      rewrite utf_16_be_decode_unit, unit16_encode by assumption.
      unfold is_surrogate. rewrite Hns. cbn [negb]. now rewrite IH.
    + apply N.ltb_ge in Hbmp.
      pose proof (N.div_mod (c - 0x10000) 1024 ltac:(lia)) as Hdm.
      assert (Hq : (c - 0x10000) / 1024 < 1024)
        by (apply N.Div0.div_lt_upper_bound; lia).
      assert (Hr : (c - 0x10000) mod 1024 < 1024) by (apply N.mod_lt; lia).
      revert Hdm Hq Hr.
      generalize ((c - 0x10000) / 1024) ((c - 0x10000) mod 1024).
      intros q r Hdm Hq Hr.
      unfold encode_unit. cbn [app].
      rewrite utf_16_be_decode_unit, !unit16_encode by lia.
      destruct (high_unit Hq) as [-> ->]. rewrite (low_unit Hr).
      cbn [negb]. rewrite IH, join_split by assumption. cbn [cons_ok].
      f_equal. f_equal. lia.
Qed.

(** ** The decoder under its three error modes *)

(** On every input the lenient modes return a text; they agree with the
    strict mode when it accepts the input, and otherwise [Replace] is
    longer than [Ignore] by the substitution characters it puts in. *)
Lemma utf_16_be_decode_modes (n : nat) :
  forall raw, (List.length raw <= n)%nat ->
  exists s r,
    utf_16_be_decode Ignore raw = Ok s /\
    utf_16_be_decode Replace raw = Ok r /\
    (2 * List.length s <= List.length raw)%nat /\
    ((utf_16_be_decode Strict raw = Ok s /\ r = s) \/
     (utf_16_be_decode Strict raw = Raise UnicodeDecodeError /\
      (List.length s < List.length r)%nat)).
Proof.
  induction n as [n IH] using (well_founded_induction Nat.lt_wf_0).
  intros raw Hlen.
  destruct raw as [|hi [|lo rest]].
  - exists [], []. cbn. intuition.
  - exists [], [REPLACEMENT]. cbn. intuition.
  - cbn [List.length] in Hlen.
    assert (Hrest : exists s r,
      utf_16_be_decode Ignore rest = Ok s /\
      utf_16_be_decode Replace rest = Ok r /\
      (2 * List.length s <= List.length rest)%nat /\
      ((utf_16_be_decode Strict rest = Ok s /\ r = s) \/
       (utf_16_be_decode Strict rest = Raise UnicodeDecodeError /\
        (List.length s < List.length r)%nat))).
    { apply (IH (List.length rest)); lia. }
    destruct Hrest as (s & r & Hi & Hr & Hl & Hs).
    rewrite !utf_16_be_decode_unit.
    destruct (negb (is_surrogate (unit16 hi lo))).
    + exists (unit16 hi lo :: s), (unit16 hi lo :: r).
      rewrite Hi, Hr. cbn [cons_ok List.length] in *.
      repeat split; try lia.
      destruct Hs as [[Hs ->]|[Hs Hlt]]; rewrite Hs; cbn [cons_ok List.length].
      * left. split; reflexivity.
      * right. split; [reflexivity|lia].
    + destruct (is_high_surrogate (unit16 hi lo)); cbn [negb].
      * destruct rest as [|hi2 [|lo2 rest']].
        -- exists [], [REPLACEMENT]. cbn. intuition.
        -- exists [], [REPLACEMENT]. cbn. intuition.
        -- destruct (is_low_surrogate (unit16 hi2 lo2)).
           ++ cbn [List.length] in Hlen.
              destruct (IH (List.length rest')) with (raw := rest')
                as (s' & r' & Hi' & Hr' & Hl' & Hs'); [lia|lia|].
              exists (join_surrogates (unit16 hi lo) (unit16 hi2 lo2) :: s'),
                     (join_surrogates (unit16 hi lo) (unit16 hi2 lo2) :: r').
              rewrite Hi', Hr'. cbn [cons_ok List.length] in *.
              repeat split; try lia.
              destruct Hs' as [[Hs' ->]|[Hs' Hlt]]; rewrite Hs';
                cbn [cons_ok List.length].
              ** left. split; reflexivity.
              ** right. split; [reflexivity|lia].
           ++ exists s, (REPLACEMENT :: r).
              rewrite Hi, Hr. cbn [on_error List.length] in *.
              repeat split; try lia.
              right. split; [reflexivity|].
              destruct Hs as [[_ ->]|[_ Hlt]]; lia.
      * exists s, (REPLACEMENT :: r).
        rewrite Hi, Hr. cbn [on_error List.length] in *.
        repeat split; try lia.
        right. split; [reflexivity|].
        destruct Hs as [[_ ->]|[_ Hlt]]; lia.
Qed.

(** ** Running the monad *)

Ltac answer :=
  match goal with
  | |- context [raised (?env ?k)] =>
      let E := fresh "Ans" in destruct (raised (env k)) eqn:E
  end.

Ltac run_all := cbn; repeat (answer; cbn).

(** Unfolds the monad and the functions built on it, and nothing else:
    [connect_smpp], the codecs and the tests on states stay folded. *)
Ltac mrun :=
  cbv beta iota zeta delta
    [bind ret raise try_except lift emit logger sleep get_client set_client
     outcome count_call smpp chat new_client client_state_in
     queue_put queue_get queue_task_done
     trace world result fst snd negb is_Exception];
  cbn [app state handle client fresh message_queue unfinished_tasks calls];
  rewrite ?app_nil_r;
  cbn [app state handle client fresh message_queue unfinished_tasks calls].

Ltac tnorm := cbn [app]; rewrite <- ?app_assoc; cbn [app].

(** ** [connect_smpp] *)

(** A reconnect constructs one client and sends nothing; it returns the new
    global client exactly when none of its calls raised, and re-raises
    otherwise. *)
Lemma connect_smpp_spec (env : Env) (w : World) :
  let run := connect_smpp env w in
  count is_reconnect (trace run) = 1%nat /\
  count is_send (trace run) = 0%nat /\
  count is_probe (trace run) = 0%nat /\
  count is_unbind (trace run) = 0%nat /\
  count is_disconnect (trace run) = 0%nat /\
  (exists o rest, trace run = ESmpp (fresh w) NewClient o :: rest /\
                  count is_reconnect rest = 0%nat) /\
  message_queue (world run) = message_queue w /\
  unfinished_tasks (world run) = unfinished_tasks w /\
  match result run with
  | Ok c =>
      no_failure (trace run) = true /\
      c = client (world run) /\
      exists st, c = Some {| handle := fresh w; state := st |}
  | Raise e => no_failure (trace run) = false
  end.
Proof.
  unfold connect_smpp, try_except, bind, new_client, smpp, logger, emit,
    get_client, raise, outcome, count_call, trace, world, result.
  run_all; repeat split; eauto.
Qed.

(** ** Counting events *)

Lemma count_app p (a b : list Event) : count p (a ++ b) = (count p a + count p b)%nat.
Proof. unfold count. now rewrite filter_app, length_app. Qed.

Lemma count_cons p (ev : Event) (t : list Event) :
  count p (ev :: t) = ((if p ev then 1 else 0) + count p t)%nat.
Proof. unfold count. cbn. now destruct (p ev). Qed.

Lemma count_nil p : count p [] = 0%nat.
Proof. reflexivity. Qed.

Lemma no_failure_app (a b : list Event) :
  no_failure (a ++ b) = no_failure a && no_failure b.
Proof. apply forallb_app. Qed.

Lemma no_failure_cons (ev : Event) (t : list Event) :
  no_failure (ev :: t) = negb (failed ev) && no_failure t.
Proof. reflexivity. Qed.

Lemma no_failure_nil : no_failure [] = true.
Proof. reflexivity. Qed.

Lemma count_split p (t pre post : list Event) (ev : Event) :
  t = pre ++ ev :: post -> p ev = true -> (1 <= count p t)%nat.
Proof.
  intros -> Hp. rewrite count_app, count_cons, Hp. lia.
Qed.

(** In a list with a single [p]-event, that event is found at one place
    only. *)
Lemma split_unique p (l1 : list Event) :
  forall x l2 pre ev post,
    count p l1 = 0%nat -> count p l2 = 0%nat ->
    l1 ++ x :: l2 = pre ++ ev :: post -> p ev = true ->
    pre = l1.
Proof.
  induction l1 as [|a l1 IH]; intros x l2 pre ev post H1 H2 E Hp.
  - destruct pre as [|b pre]; [reflexivity|].
    cbn in E. injection E as _ E.
    pose proof (@count_split p l2 pre post ev E Hp). lia.
  - rewrite count_cons in H1.
    destruct pre as [|b pre]; cbn in E; injection E as Eh E.
    + subst a. rewrite Hp in H1. lia.
    + subst b. f_equal. apply (IH x l2 pre ev post); try assumption.
      destruct (p a); lia.
Qed.

Lemma utf_16_be_encode_valid (s : str) :
  valid_text s = true -> exists b, utf_16_be_encode s = Ok b.
Proof.
  induction s as [|c s IH]; intros Hv.
  - now exists [].
  - cbn [valid_text forallb] in Hv. apply andb_true_iff in Hv.
    destruct Hv as [Hc Hs]. destruct (IH Hs) as [tl Htl].
    rewrite utf_16_be_encode_cons, Hc, Htl. cbn [negb].
    destruct (c <? 0x10000); eexists; reflexivity.
Qed.

(** ** [send_sms] *)

(** The runs of [send_sms], case by case: the text cannot be encoded, the
    session is bound, the reconnect fails, the reconnect succeeds. *)
Lemma send_sms_shape (env : Env) (FROM phone message : str) (w : World) :
  let run := send_sms env FROM phone message w in
  let rc := connect_smpp env w in
  let closing (o : option exn) :=
    match o with
    | None => ELog INFO (log_sms_sent phone message)
    | Some e => ELog ERROR (log_sms_failed e)
    end in
  let verdict (o : option exn) :=
    match o with None => true | Some _ => false end in
  let prelude :=
    if bound w then [] else ELog WARNING log_send_reconnect :: trace rc in
  match (if bound w then Ok (client w) else result rc), utf_16_be_encode message with
  | Raise e, _ =>
      run = (Ok false, world rc, prelude ++ [ELog ERROR (log_sms_failed e)])
  | Ok _, Raise e =>
      result run = Ok false /\
      trace run = prelude ++ [ELog ERROR (log_sms_failed e)]
  | Ok _, Ok b =>
      exists h o,
        result run = Ok (verdict o) /\
        trace run =
          prelude ++
          [ESmpp h (SendMessage
                      {| source_addr_ton := SMPP_TON_INTL;
                         source_addr := FROM;
                         dest_addr_ton := SMPP_TON_INTL;
                         destination_addr := phone;
                         short_message := b;
                         data_coding := 8;
                         esm_class := SMPP_MSGMODE_DEFAULT |}) o;
           closing o]
  end.
Proof.
  pose proof (connect_smpp_spec env w) as Hc. revert Hc.
  unfold send_sms, bound. mrun.
  destruct (client w) as [[hd st]|] eqn:Ecl; mrun;
    [destruct (state_in st [BOUND_TRX]) eqn:Est|]; mrun.
  - intros _. rewrite ?Ecl.
    destruct (utf_16_be_encode message) as [b|e]; mrun.
    + destruct (raised (env (calls w))) as [e|];
        [exists hd, (Some e)|exists hd, None]; split; reflexivity.
    + split; reflexivity.
  - destruct (connect_smpp env w) as [[[c|e] wc] tc]; mrun;
      intros Hc; [|reflexivity].
    destruct Hc as (_ & _ & _ & _ & _ & _ & _ & _ & _ & -> & st' & Hst).
    destruct (utf_16_be_encode message) as [b|e]; mrun; rewrite ?Hst; mrun.
    + destruct (raised (env (calls wc))) as [e|];
        [exists (fresh w), (Some e)|exists (fresh w), None];
        split; try reflexivity; tnorm; reflexivity.
    + split; reflexivity.
  - destruct (connect_smpp env w) as [[[c|e] wc] tc]; mrun;
      intros Hc; [|reflexivity].
    destruct Hc as (_ & _ & _ & _ & _ & _ & _ & _ & _ & -> & st' & Hst).
    destruct (utf_16_be_encode message) as [b|e]; mrun; rewrite ?Hst; mrun.
    + destruct (raised (env (calls wc))) as [e|];
        [exists (fresh w), (Some e)|exists (fresh w), None];
        split; try reflexivity; tnorm; reflexivity.
    + split; reflexivity.
Qed.

Ltac counts :=
  rewrite ?count_app, ?count_cons, ?count_nil,
    ?no_failure_app, ?no_failure_cons, ?no_failure_nil;
  cbn [is_send is_reconnect is_probe is_unbind is_disconnect failed negb
       is_period is_backoff is_reconnect_branch is_failed_probe is_error_log
       andb Nat.add].

(** C1, as the code has it.  For a text that can be encoded, [send_sms]
    returns [True] when no outside call raised and [False] otherwise, and
    never raises.  When the session is bound as a transceiver it makes no
    reconnect and calls [send_message] exactly once.  When the session is
    missing or not bound it makes exactly one reconnect attempt; if that
    attempt succeeds [send_message] is called exactly once, after it; if it
    fails [send_message] is not called at all and the result is [False]. *)
Theorem send_sms_dispatch (env : Env) (FROM phone message : str) (w : World) :
  valid_text message = true ->
  let run := send_sms env FROM phone message w in
  result run = Ok (no_failure (trace run)) /\
  (count is_send (trace run) <= 1)%nat /\
  (count is_send (trace run) = 0%nat -> no_failure (trace run) = false) /\
  (forall pre ev post,
     trace run = pre ++ ev :: post -> is_send ev = true ->
     no_failure pre = true /\
     count is_reconnect pre = count is_reconnect (trace run)) /\
  if bound w
  then count is_reconnect (trace run) = 0%nat /\
       count is_send (trace run) = 1%nat
  else count is_reconnect (trace run) = 1%nat /\
       match result (connect_smpp env w) with
       | Ok _ => count is_send (trace run) = 1%nat
       | Raise _ =>
           count is_send (trace run) = 0%nat /\ result run = Ok false
       end.
Proof.
  intros Hv. destruct (utf_16_be_encode_valid message Hv) as [b Hb].
  pose proof (send_sms_shape env FROM phone message w) as Hshape.
  pose proof (connect_smpp_spec env w) as Hc.
  cbv zeta in Hshape, Hc. rewrite Hb in Hshape. cbv zeta.
  destruct Hc as (Hrec & Hsend & _ & _ & _ & _ & _ & _ & Hres).
  destruct (bound w).
  - destruct Hshape as (hd & o & Hr & Ht). rewrite Hr, Ht.
    assert (Hpre : forall pre ev post,
      [ESmpp hd (SendMessage
         {| source_addr_ton := SMPP_TON_INTL; source_addr := FROM;
            dest_addr_ton := SMPP_TON_INTL; destination_addr := phone;
            short_message := b; data_coding := 8;
            esm_class := SMPP_MSGMODE_DEFAULT |}) o;
       match o with
       | Some e => ELog ERROR (log_sms_failed e)
       | None => ELog INFO (log_sms_sent phone message)
       end] = pre ++ ev :: post ->
      is_send ev = true -> pre = []).
    { intros pre ev post E Hev.
      eapply (@split_unique is_send []); [| |exact E|exact Hev].
      - reflexivity.
      - now destruct o. }
    repeat split; try (rewrite (Hpre _ _ _ H H0));
      destruct o; counts; try reflexivity; try lia; try discriminate.
  - destruct (result (connect_smpp env w)) as [c|e].
    + destruct Hshape as (hd & o & Hr & Ht). destruct Hres as (Hnf & _).
      rewrite Hr, Ht.
      assert (Hpre : forall pre ev post,
        (ELog WARNING log_send_reconnect :: trace (connect_smpp env w)) ++
        [ESmpp hd (SendMessage
           {| source_addr_ton := SMPP_TON_INTL; source_addr := FROM;
              dest_addr_ton := SMPP_TON_INTL; destination_addr := phone;
              short_message := b; data_coding := 8;
              esm_class := SMPP_MSGMODE_DEFAULT |}) o;
         match o with
         | Some e => ELog ERROR (log_sms_failed e)
         | None => ELog INFO (log_sms_sent phone message)
         end] = pre ++ ev :: post ->
        is_send ev = true ->
        pre = ELog WARNING log_send_reconnect :: trace (connect_smpp env w)).
      { intros pre ev post E Hev.
        eapply (@split_unique is_send); [| |exact E|exact Hev].
        - counts. exact Hsend.
        - now destruct o. }
      repeat split; try (rewrite (Hpre _ _ _ H H0));
        destruct o; counts; rewrite ?Hnf, ?Hsend, ?Hrec;
        try reflexivity; try lia; try discriminate.
    + rewrite Hshape. cbn [result trace fst snd].
      repeat split;
        try (exfalso; pose proof (@count_split is_send _ _ _ _ H H0) as Hge;
             revert Hge);
        counts; rewrite ?Hres, ?Hsend, ?Hrec;
        try reflexivity; try lia; try discriminate.
Qed.

Lemma send_sms_dispatch_witness :
  valid_text (lit "Hello") = true /\
  result (send_sms env_ok sender (lit "15551234567") (lit "Hello") bound_world)
  = Ok (no_failure
          (trace (send_sms env_ok sender (lit "15551234567") (lit "Hello")
                           bound_world))).
Proof.
  split; [reflexivity|].
  exact (proj1 (send_sms_dispatch env_ok sender (lit "15551234567")
                  (lit "Hello") bound_world eq_refl)).
Defined.

(** C1, as stated, fails when the gateway refuses the connection: with no
    session at hand and a text that can be encoded, [send_sms] makes its one
    reconnect attempt, the attempt raises, and no send follows it. *)
Lemma send_sms_refused_no_send :
  valid_text (lit "Hello") = true /\
  bound initial_world = false /\
  count is_reconnect
    (trace (send_sms env_connect_refused sender (lit "15551234567")
                     (lit "Hello") initial_world)) = 1%nat /\
  count is_send
    (trace (send_sms env_connect_refused sender (lit "15551234567")
                     (lit "Hello") initial_world)) = 0%nat /\
  count is_send
    (trace (send_sms env_connect_refused sender (lit "15551234567")
                     (lit "Hello") initial_world)) <> 1%nat /\
  result (send_sms env_connect_refused sender (lit "15551234567")
                   (lit "Hello") initial_world) = Ok false.
Proof.
  repeat split. vm_compute. discriminate.
Qed.

Lemma count_zero_not_in p (t : list Event) (ev : Event) :
  count p t = 0%nat -> In ev t -> p ev = false.
Proof.
  intros Hc Hin. destruct (p ev) eqn:Hp; [|reflexivity].
  apply in_split in Hin. destruct Hin as (pre & post & E).
  pose proof (@count_split p _ _ _ _ E Hp). lia.
Qed.

(** C8.  Whenever [send_sms] calls [send_message], the payload is the
    UTF-16 big-endian encoding of the message body (so it decodes back to
    the body), the data coding is 8, and source and destination address
    types are both the international one; the destination is the number
    asked for and the source the configured number. *)
Theorem send_message_arguments (env : Env) (FROM phone message : str)
    (w : World) (hd : nat) (kw : SubmitArgs) (o : option exn) :
  In (ESmpp hd (SendMessage kw) o) (trace (send_sms env FROM phone message w)) ->
  utf_16_be_encode message = Ok (short_message kw) /\
  utf_16_be_decode Strict (short_message kw) = Ok message /\
  data_coding kw = 8 /\
  source_addr_ton kw = SMPP_TON_INTL /\
  dest_addr_ton kw = SMPP_TON_INTL /\
  source_addr kw = FROM /\
  destination_addr kw = phone.
Proof.
  intros Hin.
  pose proof (send_sms_shape env FROM phone message w) as Hshape.
  pose proof (connect_smpp_spec env w) as Hc.
  cbv zeta in Hshape, Hc.
  destruct Hc as (_ & Hsend & _).
  assert (Hprelude : ~ In (ESmpp hd (SendMessage kw) o)
            (if bound w then []
             else ELog WARNING log_send_reconnect :: trace (connect_smpp env w))).
  { destruct (bound w); [exact (fun F => F)|].
    intros [F|F]; [discriminate|].
    apply (count_zero_not_in is_send _ _ Hsend) in F. discriminate. }
  destruct (if bound w then Ok (client w) else result (connect_smpp env w))
    as [c|e].
  - destruct (utf_16_be_encode message) as [b|e] eqn:Hb.
    + destruct Hshape as (hd' & o' & _ & Ht). rewrite Ht in Hin.
      apply in_app_or in Hin. destruct Hin as [F|[E|[E|[]]]].
      * now apply Hprelude in F.
      * injection E as _ <- _. cbn. repeat split.
        now apply utf_16_be_roundtrip.
      * destruct o'; discriminate.
    + destruct Hshape as (_ & Ht). rewrite Ht in Hin.
      apply in_app_or in Hin. destruct Hin as [F|[E|[]]].
      * now apply Hprelude in F.
      * discriminate.
  - rewrite Hshape in Hin. cbn [trace snd] in Hin.
    apply in_app_or in Hin. destruct Hin as [F|[E|[]]].
    + now apply Hprelude in F.
    + discriminate.
Qed.

Lemma send_message_arguments_witness :
  In (ESmpp 0 (SendMessage hi_args) None)
     (trace (send_sms env_ok sender (lit "15551234567") (lit "Hi") bound_world)) /\
  utf_16_be_decode Strict (short_message hi_args) = Ok (lit "Hi") /\
  data_coding hi_args = 8.
Proof.
  split; [left; reflexivity|].
  pose proof (send_message_arguments env_ok sender (lit "15551234567")
                (lit "Hi") bound_world 0%nat hi_args None
                (or_introl eq_refl)) as H.
  split; [exact (proj1 (proj2 H))|exact (proj1 (proj2 (proj2 H)))].
Defined.

(** ** Decoding the inbound payload *)

Lemma eq_int_0_8 (coding : value) :
  eq_int coding 0 = true -> eq_int coding 8 = false.
Proof.
  destruct coding as [|z| |]; cbn; try discriminate.
  intros H. apply Z.eqb_eq in H. now subst z.
Qed.

Lemma decode_payload_returns (coding : value) (raw : bytes) :
  exists s, decode_payload coding (VBytes raw) = Ok s.
Proof.
  unfold decode_payload, decode_method, latin_1_decode.
  destruct (eq_int coding 0); [eauto|].
  destruct (eq_int coding 8); [|eauto].
  destruct (utf_16_be_decode_modes (n := List.length raw) raw (le_n _))
    as (s & _ & Hs & _).
  eauto.
Qed.

Lemma decode_payload_not_bytes (coding v : value) :
  (forall b, v <> VBytes b) -> decode_payload coding v = Raise AttributeError.
Proof.
  intros Hv. unfold decode_payload.
  destruct v as [| | |b]; [| | |now contradiction (Hv b)];
    cbn; destruct (eq_int coding 0), (eq_int coding 8); reflexivity.
Qed.

Lemma ascii_decode_ignore (raw : bytes) :
  ascii_decode Ignore raw
  = Ok (map byte_val (filter (fun b => byte_val b <? 128) raw)).
Proof.
  induction raw as [|b raw IH]; [reflexivity|].
  cbn [ascii_decode filter]. rewrite IH.
  now destruct (byte_val b <? 128).
Qed.

(** C2, as the code has it.  Decoding the payload of a frame never raises,
    whatever the bytes and the encoding indicator.  Indicator 8 selects
    UTF-16 big endian with malformed stretches skipped: the result is the
    strict decoding when the payload is well formed, and otherwise it is
    shorter than what substitution would give, because nothing is put in
    for a malformed stretch.  Indicator 0 and every other value select
    latin-1, one character per byte. *)
Theorem decode_payload_total (coding : value) (raw : bytes) :
  exists s,
    decode_payload coding (VBytes raw) = Ok s /\
    if eq_int coding 8
    then utf_16_be_decode Ignore raw = Ok s /\
         (2 * List.length s <= List.length raw)%nat /\
         (utf_16_be_decode Strict raw = Ok s \/
          (utf_16_be_decode Strict raw = Raise UnicodeDecodeError /\
           exists r, utf_16_be_decode Replace raw = Ok r /\
                     (List.length s < List.length r)%nat))
    else s = map byte_val raw.
Proof.
  unfold decode_payload, decode_method, latin_1_decode.
  destruct (eq_int coding 0) eqn:E0.
  - rewrite (eq_int_0_8 coding E0). eauto.
  - destruct (eq_int coding 8); [|eauto].
    destruct (utf_16_be_decode_modes (n := List.length raw) raw (le_n _))
      as (s & r & Hs & Hr & Hl & Hcase).
    exists s. repeat split; try assumption.
    destruct Hcase as [[Hstrict _]|[Hstrict Hlt]]; [now left|right; eauto].
Qed.

(** C2, as stated, fails on a lone low surrogate followed by "A": the
    payload is malformed, the code decodes it to "A", and no substitution
    character stands for the malformed unit. *)
Lemma decode_payload_drops_malformed :
  utf_16_be_decode Strict [xdc; x00; x00; x41] = Raise UnicodeDecodeError /\
  decode_payload (VInt 8) (VBytes [xdc; x00; x00; x41]) = Ok (lit "A") /\
  utf_16_be_decode Replace [xdc; x00; x00; x41] = Ok (REPLACEMENT :: lit "A") /\
  ~ In REPLACEMENT (lit "A").
Proof.
  repeat split. intros [F|[]]. discriminate.
Qed.

(** ** The receive callback *)

Lemma str_eqb_eq (a b : str) : str_eqb a b = true -> a = b.
Proof.
  revert b. induction a as [|x a IH]; destruct b as [|y b]; cbn;
    try discriminate; [reflexivity|].
  intros H. apply andb_true_iff in H. destruct H as [Hx Hr].
  apply N.eqb_eq in Hx. subst y. f_equal. now apply IH.
Qed.

Lemma eq_str_eq (v : value) (s : str) : eq_str v s = true -> v = VStr s.
Proof.
  destruct v; cbn; try discriminate. intros H. f_equal. now apply str_eqb_eq.
Qed.

(** The callback touches the queue for [deliver_sm] frames only. *)
Lemma handle_incoming_sms_gate (pdu : Pdu.t) (w : World) :
  Pdu.command pdu <> Some (VStr (lit "deliver_sm")) ->
  message_queue (world (handle_incoming_sms pdu w)) = message_queue w /\
  trace (handle_incoming_sms pdu w) = [].
Proof.
  intros Hcmd. unfold handle_incoming_sms, incoming_try. mrun.
  destruct (Pdu.command pdu) as [cmd|]; [|split; reflexivity].
  destruct (eq_str cmd (lit "deliver_sm")) eqn:E; [|split; reflexivity].
  apply eq_str_eq in E. subst cmd. now contradiction Hcmd.
Qed.

(** A well-formed delivery without [data_coding] is decoded as latin-1. *)
Lemma handle_incoming_sms_default (src raw : bytes) (w : World) :
  let pdu := {| Pdu.command := Some (VStr (lit "deliver_sm"));
                Pdu.source_addr := Some (VBytes src);
                Pdu.short_message := Some (VBytes raw);
                Pdu.data_coding := None |} in
  let phone := map byte_val (filter (fun b => byte_val b <? 128) src) in
  let run := handle_incoming_sms pdu w in
  result run = Ok tt /\
  message_queue (world run) = message_queue w ++ [(phone, map byte_val raw)] /\
  trace run = [ELog INFO (log_sms_received phone (map byte_val raw) (VInt 0) raw)].
Proof.
  cbv zeta. unfold handle_incoming_sms, incoming_try.
  cbn [Pdu.command Pdu.source_addr Pdu.short_message Pdu.data_coding].
  replace (eq_str (VStr (lit "deliver_sm")) (lit "deliver_sm")) with true
    by reflexivity.
  cbn [negb decode_method getattr]. rewrite ascii_decode_ignore.
  unfold decode_payload. cbn [eq_int Z.eqb decode_method latin_1_decode].
  mrun. repeat split.
Qed.

(** C10.  A well-formed delivery frame without [data_coding] is handled
    exactly as the same frame with indicator 0: the callback returns, logs
    the message with [data_coding=0], and queues the sender's number with
    the payload decoded as latin-1.  A frame whose command is not
    ['deliver_sm'] leaves the queue as it was. *)
Theorem missing_indicator_and_command_gate (pdu : Pdu.t) (w : World) :
  (forall src raw,
     pdu = {| Pdu.command := Some (VStr (lit "deliver_sm"));
              Pdu.source_addr := Some (VBytes src);
              Pdu.short_message := Some (VBytes raw);
              Pdu.data_coding := None |} ->
     handle_incoming_sms pdu w
     = handle_incoming_sms
         {| Pdu.command := Some (VStr (lit "deliver_sm"));
            Pdu.source_addr := Some (VBytes src);
            Pdu.short_message := Some (VBytes raw);
            Pdu.data_coding := Some (VInt 0) |} w /\
     result (handle_incoming_sms pdu w) = Ok tt /\
     trace (handle_incoming_sms pdu w)
     = [ELog INFO
          (log_sms_received
             (map byte_val (filter (fun b => byte_val b <? 128) src))
             (map byte_val raw) (VInt 0) raw)] /\
     message_queue (world (handle_incoming_sms pdu w))
     = message_queue w
       ++ [(map byte_val (filter (fun b => byte_val b <? 128) src),
            map byte_val raw)]) /\
  (Pdu.command pdu <> Some (VStr (lit "deliver_sm")) ->
   message_queue (world (handle_incoming_sms pdu w)) = message_queue w).
Proof.
  split.
  - intros src raw ->.
    destruct (handle_incoming_sms_default src raw w) as (Hr & Hq & Ht).
    split; [|repeat split; assumption].
    unfold handle_incoming_sms, incoming_try.
    cbn [Pdu.command Pdu.source_addr Pdu.short_message Pdu.data_coding getattr].
    reflexivity.
  - intros Hcmd. now apply handle_incoming_sms_gate.
Qed.

Lemma missing_indicator_and_command_gate_witness :
  trace (handle_incoming_sms
           (deliver_sm "15559876543" [x48; x69] None) initial_world)
  = [ELog INFO
       (log_sms_received
          (map byte_val
             (filter (fun b => byte_val b <? 128) (ascii_bytes "15559876543")))
          (map byte_val [x48; x69]) (VInt 0) [x48; x69])] /\
  message_queue (world (handle_incoming_sms enquire_link_resp initial_world))
  = [].
Proof.
  split.
  - exact (proj1 (proj2 (proj2
      (proj1 (missing_indicator_and_command_gate
                (deliver_sm "15559876543" [x48; x69] None) initial_world)
         (ascii_bytes "15559876543") [x48; x69] eq_refl)))).
  - refine (proj2 (missing_indicator_and_command_gate
                     enquire_link_resp initial_world) _).
    discriminate.
Defined.

(** Once the [try] block of the callback raises, the [except] clause
    raises too: it reads a local variable that is not bound yet, or calls
    [hex] on a payload that is not [bytes].  Nothing is logged. *)
Lemma incoming_except_never_logs (pdu : Pdu.t) (w w' : World)
    (l : Locals) (e : exn) (t : list Event) :
  incoming_try pdu w = (Ok (l, Raise e), w', t) ->
  trace (handle_incoming_sms pdu w) = [] /\
  (result (handle_incoming_sms pdu w) = Raise UnboundLocalError \/
   result (handle_incoming_sms pdu w) = Raise AttributeError).
Proof.
  unfold handle_incoming_sms, incoming_try. mrun.
  destruct (Pdu.command pdu) as [cmd|].
  2:{ intros _. split; [reflexivity|now left]. }
  destruct (eq_str cmd (lit "deliver_sm")); cbn [negb]; [|discriminate].
  destruct (Pdu.source_addr pdu) as [src|].
  2:{ intros _. split; [reflexivity|now left]. }
  destruct src as [|z|s|b]; cbn [decode_method];
    try (intros _; split; [reflexivity|now left]).
  rewrite ascii_decode_ignore.
  destruct (Pdu.short_message pdu) as [raw|].
  2:{ intros _. split; [reflexivity|now left]. }
  destruct raw as [|z|s|payload];
    try (rewrite decode_payload_not_bytes by discriminate; mrun;
         intros _; split; [reflexivity|now right]).
  destruct (decode_payload_returns (getattr (Pdu.data_coding pdu) (VInt 0))
              payload) as [content ->].
  discriminate.
Qed.

(** C6 fails on a truncated delivery frame: reading [source_addr] raises
    inside the [try] block, and the [except] clause, which formats
    [phone_number] into its message, raises [UnboundLocalError] out of the
    callback. *)
Theorem handle_incoming_sms_raises :
  handle_incoming_sms truncated_deliver_sm initial_world
  = (Raise UnboundLocalError, initial_world, []).
Proof. reflexivity. Qed.

(** ** The chat handler *)

Lemma split_space_1_none (s : str) : ~ In 32 s -> split_space_1 s = [s].
Proof.
  induction s as [|c s IH]; intros Hn; [reflexivity|].
  cbn [split_space_1].
  destruct (c =? 32) eqn:E.
  - apply N.eqb_eq in E. exfalso. apply Hn. now left.
  - rewrite IH; [reflexivity|]. intros F. apply Hn. now right.
Qed.

Lemma split_space_1_first (a b : str) :
  ~ In 32 a -> split_space_1 (a ++ 32 :: b) = [a; b].
Proof.
  induction a as [|c a IH]; intros Hn; [reflexivity|].
  cbn [split_space_1 app].
  destruct (c =? 32) eqn:E.
  - apply N.eqb_eq in E. exfalso. apply Hn. now left.
  - rewrite IH; [reflexivity|]. intros F. apply Hn. now right.
Qed.

(** [send_sms] catches everything: it returns a boolean. *)
Lemma send_sms_never_raises (env : Env) (FROM phone message : str) (w : World) :
  exists success, result (send_sms env FROM phone message w) = Ok success.
Proof.
  pose proof (send_sms_shape env FROM phone message w) as Hshape.
  cbv zeta in Hshape.
  destruct (if bound w then Ok (client w) else result (connect_smpp env w)).
  - destruct (utf_16_be_encode message).
    + destruct Hshape as (hd & o & Hr & _). eauto.
    + destruct Hshape as (Hr & _). eauto.
  - rewrite Hshape. exists false. reflexivity.
Qed.

(** C9.  A chat message without a space is answered with the format-error
    notice and nothing else happens: [send_sms] is not called.  A message
    with a space calls [send_sms] with the part before the first space as
    the number and everything after it as the body, and then replies
    according to the outcome. *)
Theorem handle_message_split (env : Env) (FROM user_message : str) (w : World) :
  (~ In 32 user_message ->
   handle_message env FROM user_message w
   = chat env (ReplyTextOp reply_format_error) w) /\
  (forall phone message,
     user_message = phone ++ 32 :: message -> ~ In 32 phone ->
     exists success o rest,
       result (send_sms env FROM phone message w) = Ok success /\
       trace (handle_message env FROM user_message w)
       = trace (send_sms env FROM phone message w)
         ++ EChat (ReplyTextOp (if success then reply_sent message phone
                                else reply_send_failed)) o
         :: rest /\
       (rest = [] \/
        exists o', rest = [EChat (ReplyTextOp reply_format_error) o'])).
Proof.
  split.
  - intros Hn. unfold handle_message.
    rewrite (split_space_1_none user_message Hn). reflexivity.
  - intros phone message -> Hn. unfold handle_message.
    rewrite split_space_1_first by exact Hn.
    cbn [unpack_2]. mrun.
    destruct (send_sms_never_raises env FROM phone message w) as [success Hs].
    revert Hs. mrun.
    destruct (send_sms env FROM phone message w) as [[r ws] ts].
    mrun. intros ->. exists success.
    destruct success; mrun;
      (destruct (raised (env (calls ws))) as [e|] eqn:Ea; mrun;
       [destruct (is_ValueError e); mrun|]);
      eexists _, _; (split; [reflexivity|]); tnorm;
      (split; [reflexivity|]); eauto.
Qed.

Lemma handle_message_split_witness :
  handle_message env_ok sender (lit "hello") bound_world
  = chat env_ok (ReplyTextOp reply_format_error) bound_world /\
  exists success o rest,
    result (send_sms env_ok sender (lit "15551234567") (lit "Hello") bound_world)
    = Ok success /\
    trace (handle_message env_ok sender (lit "15551234567 Hello") bound_world)
    = trace (send_sms env_ok sender (lit "15551234567") (lit "Hello")
                      bound_world)
      ++ EChat (ReplyTextOp (if success
                             then reply_sent (lit "Hello") (lit "15551234567")
                             else reply_send_failed)) o
      :: rest /\
    (rest = [] \/
     exists o', rest = [EChat (ReplyTextOp reply_format_error) o']).
Proof.
  split.
  - apply (proj1 (handle_message_split env_ok sender (lit "hello") bound_world)).
    cbv. intuition discriminate.
  - apply (proj2 (handle_message_split env_ok sender
                    (lit "15551234567 Hello") bound_world)
             (lit "15551234567") (lit "Hello") eq_refl).
    cbv. intuition discriminate.
Defined.

(** ** The relay queue *)

Lemma received_app (a b : list Event) : received (a ++ b) = received a ++ received b.
Proof.
  induction a as [|ev a IH]; [reflexivity|].
  destruct ev as [| |l r| |]; cbn [app received]; try assumption.
  destruct l; try assumption. destruct r; try assumption.
  cbn [app]. now f_equal.
Qed.

Lemma forwarded_app (a b : list Event) :
  forwarded (a ++ b) = forwarded a ++ forwarded b.
Proof.
  induction a as [|ev a IH]; [reflexivity|].
  destruct ev as [|op o| | |]; cbn [app forwarded]; try assumption.
  destruct op; try assumption. cbn [app]. now f_equal.
Qed.

(** What one invocation of the callback does to the queue. *)
Lemma handle_incoming_sms_effect (pdu : Pdu.t) (w : World) :
  let run := handle_incoming_sms pdu w in
  (exists phone content coding raw,
     trace run = [ELog INFO (log_sms_received phone content coding raw)] /\
     message_queue (world run) = message_queue w ++ [(phone, content)] /\
     unfinished_tasks (world run) = S (unfinished_tasks w)) \/
  (trace run = [] /\
   message_queue (world run) = message_queue w /\
   unfinished_tasks (world run) = unfinished_tasks w).
Proof.
  cbv zeta. unfold handle_incoming_sms, incoming_try. mrun.
  destruct (Pdu.command pdu) as [cmd|]; [|right; repeat split].
  destruct (eq_str cmd (lit "deliver_sm")); cbn [negb]; [|right; repeat split].
  destruct (Pdu.source_addr pdu) as [src|]; [|right; repeat split].
  destruct src as [| | |src]; cbn [decode_method];
    try solve [right; repeat split].
  rewrite ascii_decode_ignore.
  destruct (Pdu.short_message pdu) as [raw|]; [|right; repeat split].
  destruct raw as [| | |raw];
    try solve [rewrite decode_payload_not_bytes by discriminate; mrun;
               right; repeat split].
  destruct (decode_payload_returns (getattr (Pdu.data_coding pdu) (VInt 0)) raw)
    as [content ->].
  mrun. left. eexists _, _, _, _. repeat split.
Qed.

(** What one turn of the consumer does.  An exception of the forward
    leaves the loop unless it is [queue.Empty]. *)
Lemma process_incoming_turn_effect (env : Env) (CHAT : str) (w : World) :
  let run := process_incoming_turn env CHAT w in
  match message_queue w with
  | [] =>
      result run = Ok tt /\
      trace run = [EQueueWait 1; ESleep (1 # 10)] /\
      message_queue (world run) = [] /\
      unfinished_tasks (world run) = unfinished_tasks w
  | (phone, content) :: rest =>
      message_queue (world run) = rest /\
      match raised (env (calls w)), unfinished_tasks w with
      | Some e, _ =>
          result run = (if is_QueueEmpty e then Ok tt else Raise e) /\
          trace run = [ELog DEBUG (log_to_telegram phone content);
                       EChat (BotSendMessage CHAT phone content) (Some e)]
                      ++ (if is_QueueEmpty e then [ESleep (1 # 10)] else []) /\
          unfinished_tasks (world run) = unfinished_tasks w
      | None, S n =>
          result run = Ok tt /\
          trace run = [ELog DEBUG (log_to_telegram phone content);
                       EChat (BotSendMessage CHAT phone content) None] /\
          unfinished_tasks (world run) = n
      | None, O =>
          result run = Raise ValueError /\
          trace run = [ELog DEBUG (log_to_telegram phone content);
                       EChat (BotSendMessage CHAT phone content) None]
      end
  end.
Proof.
  cbv zeta. unfold process_incoming_turn. mrun.
  destruct (message_queue w) as [|[phone content] rest] eqn:Eq; mrun.
  - cbn [is_QueueEmpty]. mrun. repeat split. exact Eq.
  - destruct (raised (env (calls w))) as [e|] eqn:Ea; mrun.
    + destruct e; cbn [is_QueueEmpty]; mrun; repeat split.
    + destruct (unfinished_tasks w) as [|n]; mrun; repeat split.
Qed.

Lemma relay_step_invariant (env : Env) (CHAT : str) (q0 : list (str * str))
    (s : RelayState) (a : Action) :
  forwarded (relay_trace s) ++ message_queue (relay_world s)
  = q0 ++ received (relay_trace s) ->
  forwarded (relay_trace (relay_step env CHAT s a))
  ++ message_queue (relay_world (relay_step env CHAT s a))
  = q0 ++ received (relay_trace (relay_step env CHAT s a)).
Proof.
  destruct s as [[w t] ended].
  unfold relay_trace, relay_world, relay_step. cbn [fst snd]. intros Inv.
  destruct a as [pdu|].
  - pose proof (handle_incoming_sms_effect pdu w) as He. cbv zeta in He.
    destruct (handle_incoming_sms pdu w) as [[r w'] t'].
    unfold trace, world in He. cbn [fst snd] in *.
    rewrite forwarded_app, received_app.
    destruct He as [(ph & c & cd & raw & -> & -> & _)|(-> & -> & _)];
      cbn [forwarded received].
    + rewrite !app_nil_r, !app_assoc. now rewrite Inv.
    + now rewrite !app_nil_r.
  - destruct ended as [e|]; [exact Inv|].
    pose proof (process_incoming_turn_effect env CHAT w) as He.
    cbv zeta in He.
    destruct (process_incoming_turn env CHAT w) as [[r w'] t'].
    unfold trace, world, result in He. cbn [fst snd] in *.
    rewrite forwarded_app, received_app.
    destruct (message_queue w) as [|[ph c] rest].
    + destruct He as (_ & -> & -> & _). cbn [forwarded received].
      now rewrite !app_nil_r in *.
    + destruct He as (-> & He).
      assert (Ht : forwarded t' = [(ph, c)] /\ received t' = []).
      { destruct (raised (env (calls w))) as [e|].
        - destruct He as (_ & -> & _). now destruct (is_QueueEmpty e).
        - destruct (unfinished_tasks w); destruct He as (_ & He);
            [|destruct He as (He & _)]; now rewrite He. }
      destruct Ht as [-> ->]. rewrite app_nil_r, <- app_assoc. exact Inv.
Qed.

Lemma relay_invariant (env : Env) (CHAT : str) (q0 : list (str * str))
    (acts : list Action) :
  forall s,
    forwarded (relay_trace s) ++ message_queue (relay_world s)
    = q0 ++ received (relay_trace s) ->
    forwarded (relay_trace (relay env CHAT acts s))
    ++ message_queue (relay_world (relay env CHAT acts s))
    = q0 ++ received (relay_trace (relay env CHAT acts s)).
Proof.
  induction acts as [|a acts IH]; intros s Inv; [exact Inv|].
  cbn [relay fold_left]. apply IH. now apply relay_step_invariant.
Qed.

(** While no forward raises, the consumer stays in its loop and the count
    of unfinished tasks covers the queue. *)
Lemma relay_step_running (env : Env) (CHAT : str) (s : RelayState) (a : Action) :
  (forall k, raised (env k) = None) ->
  relay_ended s = None ->
  (List.length (message_queue (relay_world s))
   <= unfinished_tasks (relay_world s))%nat ->
  relay_ended (relay_step env CHAT s a) = None /\
  (List.length (message_queue (relay_world (relay_step env CHAT s a)))
   <= unfinished_tasks (relay_world (relay_step env CHAT s a)))%nat.
Proof.
  intros Henv. destruct s as [[w t] ended].
  unfold relay_ended, relay_world, relay_step. cbn [fst snd].
  intros -> Hlen. destruct a as [pdu|].
  - pose proof (handle_incoming_sms_effect pdu w) as He. cbv zeta in He.
    destruct (handle_incoming_sms pdu w) as [[r w'] t'].
    unfold trace, world in He. cbn [fst snd] in *.
    split; [reflexivity|].
    destruct He as [(ph & c & cd & raw & _ & -> & ->)|(_ & -> & ->)].
    + rewrite length_app. cbn. lia.
    + exact Hlen.
  - pose proof (process_incoming_turn_effect env CHAT w) as He.
    cbv zeta in He. rewrite Henv in He.
    destruct (process_incoming_turn env CHAT w) as [[r w'] t'].
    unfold trace, world, result in He. cbn [fst snd] in *.
    destruct (message_queue w) as [|[ph c] rest].
    + destruct He as (-> & _ & -> & ->). split; [reflexivity|cbn; lia].
    + cbn [List.length] in Hlen.
      destruct (unfinished_tasks w) as [|n]; [lia|].
      destruct He as (-> & -> & _ & ->). split; [reflexivity|lia].
Qed.

Lemma relay_running (env : Env) (CHAT : str) (acts : list Action) :
  (forall k, raised (env k) = None) ->
  forall s,
    relay_ended s = None ->
    (List.length (message_queue (relay_world s))
     <= unfinished_tasks (relay_world s))%nat ->
    relay_ended (relay env CHAT acts s) = None /\
    (List.length (message_queue (relay_world (relay env CHAT acts s)))
     <= unfinished_tasks (relay_world (relay env CHAT acts s)))%nat.
Proof.
  intros Henv. induction acts as [|a acts IH]; intros s He Hl; [now split|].
  cbn [relay fold_left].
  destruct (@relay_step_running env CHAT s a Henv He Hl) as [He' Hl'].
  now apply IH.
Qed.

(** Enough consumer turns empty the queue. *)
Lemma relay_drain (env : Env) (CHAT : str) (n : nat) :
  (forall k, raised (env k) = None) ->
  forall s,
    relay_ended s = None ->
    (List.length (message_queue (relay_world s))
     <= unfinished_tasks (relay_world s))%nat ->
    (List.length (message_queue (relay_world s)) <= n)%nat ->
    message_queue (relay_world (relay env CHAT (repeat Consume n) s)) = [] /\
    received (relay_trace (relay env CHAT (repeat Consume n) s))
    = received (relay_trace s).
Proof.
  intros Henv. induction n as [|n IH]; intros s He Hl Hn.
  - cbn. split; [|reflexivity].
    destruct (message_queue (relay_world s)); [reflexivity|cbn in Hn; lia].
  - cbn [repeat relay fold_left].
    destruct (@relay_step_running env CHAT s Consume Henv He Hl) as [He' Hl'].
    assert (Hstep :
      (List.length (message_queue (relay_world (relay_step env CHAT s Consume)))
       <= n)%nat /\
      received (relay_trace (relay_step env CHAT s Consume))
      = received (relay_trace s)).
    { clear IH He' Hl'. destruct s as [[w t] ended].
      unfold relay_ended, relay_world, relay_trace, relay_step in *.
      cbn [fst snd] in *. subst ended.
      pose proof (process_incoming_turn_effect env CHAT w) as Hf.
      cbv zeta in Hf. rewrite Henv in Hf.
      destruct (process_incoming_turn env CHAT w) as [[r w'] t'].
      unfold trace, world, result in Hf. cbn [fst snd] in *.
      rewrite received_app.
      destruct (message_queue w) as [|[ph c] rest].
      - destruct Hf as (_ & -> & -> & _). cbn. rewrite app_nil_r.
        split; [lia|reflexivity].
      - cbn [List.length] in *.
        destruct (unfinished_tasks w) as [|m]; [lia|].
        destruct Hf as (-> & _ & -> & _). cbn. rewrite app_nil_r.
        split; [lia|reflexivity]. }
    destruct Hstep as [Hn' Hrec].
    destruct (IH _ He' Hl' Hn') as [Hq Hr].
    split; [exact Hq|]. unfold relay in Hr. now rewrite Hr.
Qed.

(** C7.  Whatever the interleaving of the listener thread and the
    consumer, the messages handed to the chat platform, followed by the
    messages still in the queue, are the messages the callback received, in
    the order it received them.  When no forward raises and the consumer
    then takes as many turns as messages wait, every received message has
    been forwarded, in that order. *)
Theorem relay_queue_fifo (env : Env) (CHAT : str) (acts : list Action) :
  forwarded (relay_trace (relay env CHAT acts relay_start))
  ++ message_queue (relay_world (relay env CHAT acts relay_start))
  = received (relay_trace (relay env CHAT acts relay_start)) /\
  ((forall k, raised (env k) = None) ->
   forall n,
     (List.length (message_queue (relay_world (relay env CHAT acts relay_start)))
      <= n)%nat ->
     forwarded
       (relay_trace (relay env CHAT (acts ++ repeat Consume n) relay_start))
     = received (relay_trace (relay env CHAT acts relay_start))).
Proof.
  split.
  - apply (@relay_invariant env CHAT [] acts relay_start). reflexivity.
  - intros Henv n Hn.
    pose proof (@relay_invariant env CHAT [] (acts ++ repeat Consume n)
                  relay_start eq_refl) as Inv.
    cbn [app] in Inv. unfold relay in *. rewrite fold_left_app in *.
    destruct (@relay_running env CHAT acts Henv relay_start eq_refl (le_n _))
      as [He Hl].
    destruct (@relay_drain env CHAT n Henv _ He Hl Hn) as [Hq Hr].
    unfold relay in *. rewrite Hq, app_nil_r in Inv. now rewrite Inv, Hr.
Qed.

Lemma relay_queue_fifo_witness :
  forwarded
    (relay_trace
       (relay env_ok chat_id
          ([Deliver (deliver_sm "15559876543" [x6d; x31] None);
            Deliver (deliver_sm "15559876543" [x00; x6d; x00; x32]
                                (Some (VInt 8)));
            Consume;
            Deliver (deliver_sm "15559876543" [x6d; x33] (Some (VInt 0)))]
           ++ repeat Consume 2)
          relay_start))
  = [(lit "15559876543", lit "m1");
     (lit "15559876543", lit "m2");
     (lit "15559876543", lit "m3")].
Proof.
  refine (eq_trans
    (proj2 (relay_queue_fifo env_ok chat_id
              [Deliver (deliver_sm "15559876543" [x6d; x31] None);
               Deliver (deliver_sm "15559876543" [x00; x6d; x00; x32]
                                   (Some (VInt 8)));
               Consume;
               Deliver (deliver_sm "15559876543" [x6d; x33] (Some (VInt 0)))])
       (fun k => eq_refl) 2%nat _) _).
  - vm_compute. apply le_n.
  - vm_compute. reflexivity.
Defined.

(** ** The notification consumer *)

(** A forward that raises anything but [queue.Empty] ends the coroutine:
    the message taken from the queue is gone, nothing is logged, and the
    messages behind it are never forwarded. *)
Lemma process_incoming_messages_ends (env : Env) (CHAT : str) (w : World)
    (phone content : str) (rest : list (str * str)) (e : exn) (turns : nat) :
  message_queue w = (phone, content) :: rest ->
  raised (env (calls w)) = Some e ->
  is_QueueEmpty e = false ->
  let run := process_incoming_messages env CHAT (S turns) w in
  result run = Raise e /\
  message_queue (world run) = rest /\
  forwarded (trace run) = [(phone, content)] /\
  count is_error_log (trace run) = 0%nat.
Proof.
  intros Hq Ha He. cbv zeta.
  pose proof (process_incoming_turn_effect env CHAT w) as Hf.
  cbv zeta in Hf. rewrite Hq, Ha, He in Hf.
  cbn [process_incoming_messages]. mrun.
  destruct (process_incoming_turn env CHAT w) as [[r w'] t'].
  unfold trace, world, result in Hf. cbn [fst snd] in Hf.
  destruct Hf as (Hq' & -> & -> & _). mrun. repeat split. exact Hq'.
Qed.

(** C3 fails when the chat platform is unreachable: with two messages
    waiting, the first forward raises, the exception leaves the loop, no
    error is logged, and the second message stays in the queue for good,
    however many turns the loop is given. *)
Theorem process_incoming_messages_stops (turns : nat) :
  process_incoming_messages env_network_down chat_id (S turns) two_queued
  = (Raise NetworkError,
     {| client := None; fresh := 0%nat;
        message_queue := [(lit "15559876543", lit "again")];
        unfinished_tasks := 2%nat; calls := 1%nat |},
     [ELog DEBUG (log_to_telegram (lit "15559876543") (lit "Hi"));
      EChat (BotSendMessage chat_id (lit "15559876543") (lit "Hi"))
            (Some NetworkError)]).
Proof. reflexivity. Qed.

(** ** The keep-alive loop *)

Lemma connect_smpp_quiet (env : Env) (w : World) :
  count is_period (trace (connect_smpp env w)) = 0%nat /\
  count is_backoff (trace (connect_smpp env w)) = 0%nat /\
  count is_reconnect_branch (trace (connect_smpp env w)) = 0%nat /\
  count is_failed_probe (trace (connect_smpp env w)) = 0%nat.
Proof.
  unfold connect_smpp, try_except, bind, new_client, smpp, logger, emit,
    get_client, raise, outcome, count_call, trace, world, result.
  run_all; repeat split.
Qed.

(** The [try] block of one tick, case by case. *)
Lemma keep_alive_try_shape (env : Env) (w : World) :
  let run := keep_alive_try env w in
  let reconnect (w2 : World) (before : list Event) :=
    trace run = before ++ trace (connect_smpp env w2) /\
    result run = match result (connect_smpp env w2) with
                 | Ok _ => Ok tt
                 | Raise e => Raise e
                 end in
  match client w with
  | None => reconnect w [ELog WARNING log_keep_alive_reconnect]
  | Some c =>
      if state_in (state c) [OPEN; BOUND_TRX] then
        match raised (env (calls w)) with
        | None =>
            trace run = [ESmpp (handle c) EnquireLink None;
                         ELog DEBUG log_probe_sent] /\
            result run = Ok tt
        | Some e =>
            trace run = [ESmpp (handle c) EnquireLink (Some e)] /\
            result run = Raise e
        end
      else
        match raised (env (calls w)), raised (env (S (calls w))) with
        | Some e, _ =>
            trace run = [ELog WARNING log_keep_alive_reconnect;
                         ESmpp (handle c) Unbind (Some e)] /\
            result run = Raise e
        | None, Some e =>
            trace run = [ELog WARNING log_keep_alive_reconnect;
                         ESmpp (handle c) Unbind None;
                         ESmpp (handle c) Disconnect (Some e)] /\
            result run = Raise e
        | None, None =>
            reconnect (torn_down env w (handle c))
                      [ELog WARNING log_keep_alive_reconnect;
                       ESmpp (handle c) Unbind None;
                       ESmpp (handle c) Disconnect None]
        end
  end.
Proof.
  cbv zeta. unfold keep_alive_try, torn_down. mrun.
  destruct (client w) as [[hd st]|] eqn:Ecl; mrun.
  - destruct (state_in st [OPEN; BOUND_TRX]); mrun; rewrite ?Ecl; mrun.
    + destruct (raised (env (calls w))); mrun; split; reflexivity.
    + destruct (raised (env (calls w))); mrun; [split; reflexivity|].
      destruct (raised (env (S (calls w)))); mrun; [split; reflexivity|].
      match goal with
      | |- context [connect_smpp env ?w2] =>
          destruct (connect_smpp env w2) as [[[c|e] wc] tc]
      end; mrun; split; reflexivity.
  - rewrite ?Ecl. mrun.
    destruct (connect_smpp env w) as [[[c|e] wc] tc]; mrun; split; reflexivity.
Qed.

(** One tick never raises: what the [try] block raises is logged and
    followed by the back-off, and the tick ends with the period sleep. *)
Lemma keep_alive_tick_shape (env : Env) (w : World) :
  result (keep_alive_tick env w) = Ok tt /\
  trace (keep_alive_tick env w)
  = trace (keep_alive_try env w)
    ++ match result (keep_alive_try env w) with
       | Ok _ => [ESleep 30]
       | Raise e => [ELog ERROR (log_keep_alive_failed e); ESleep 5; ESleep 30]
       end.
Proof.
  unfold keep_alive_tick. mrun.
  destruct (keep_alive_try env w) as [[[u|e] w'] t']; mrun; tnorm;
    split; reflexivity.
Qed.

(** The [try] block raises exactly when one of its outside calls raised. *)
Lemma keep_alive_try_failure (env : Env) (w : World) :
  match result (keep_alive_try env w) with
  | Ok _ => no_failure (trace (keep_alive_try env w)) = true
  | Raise _ => no_failure (trace (keep_alive_try env w)) = false
  end.
Proof.
  pose proof (keep_alive_try_shape env w) as Hs. cbv zeta in Hs.
  destruct (client w) as [[hd st]|]; cbn [state handle] in Hs.
  - destruct (state_in st [OPEN; BOUND_TRX]).
    + destruct (raised (env (calls w))); destruct Hs as [-> ->]; reflexivity.
    + destruct (raised (env (calls w)));
        [destruct Hs as [-> ->]; reflexivity|].
      destruct (raised (env (S (calls w))));
        [destruct Hs as [-> ->]; reflexivity|].
      destruct Hs as [-> ->].
      pose proof (connect_smpp_spec env (torn_down env w hd)) as Hc.
      cbv zeta in Hc. destruct Hc as (_ & _ & _ & _ & _ & _ & _ & _ & Hc).
      destruct (result (connect_smpp env (torn_down env w hd)));
        counts; [destruct Hc as [-> _]|rewrite Hc]; reflexivity.
  - destruct Hs as [-> ->].
    pose proof (connect_smpp_spec env w) as Hc.
    cbv zeta in Hc. destruct Hc as (_ & _ & _ & _ & _ & _ & _ & _ & Hc).
    destruct (result (connect_smpp env w));
      counts; [destruct Hc as [-> _]|rewrite Hc]; reflexivity.
Qed.

(** What one tick contributes to the counts. *)
Lemma keep_alive_tick_counts (env : Env) (w : World) :
  let t := trace (keep_alive_tick env w) in
  count is_period t = 1%nat /\
  count is_probe t = (if alive w then 1 else 0)%nat /\
  count is_reconnect_branch t = (if alive w then 0 else 1)%nat /\
  (count is_reconnect t <= count is_reconnect_branch t)%nat /\
  (count is_failed_probe t <= count is_probe t)%nat /\
  (count is_unbind t <= count is_reconnect_branch t)%nat /\
  (count is_disconnect t <= count is_reconnect_branch t)%nat.
Proof.
  cbv zeta.
  destruct (keep_alive_tick_shape env w) as [_ ->].
  pose proof (keep_alive_try_shape env w) as Hs. cbv zeta in Hs.
  unfold alive.
  destruct (client w) as [[hd st]|]; cbn [state handle] in *.
  - destruct (state_in st [OPEN; BOUND_TRX]).
    + destruct (raised (env (calls w))); destruct Hs as [-> ->];
        counts; repeat split; cbn; lia.
    + destruct (raised (env (calls w)));
        [destruct Hs as [-> ->]; counts; repeat split; cbn; lia|].
      destruct (raised (env (S (calls w))));
        [destruct Hs as [-> ->]; counts; repeat split; cbn; lia|].
      destruct Hs as [-> ->].
      pose proof (connect_smpp_spec env (torn_down env w hd)) as Hc.
      pose proof (connect_smpp_quiet env (torn_down env w hd)) as Hq.
      cbv zeta in Hc.
      destruct Hc as (H1 & _ & H3 & H4 & H5 & _).
      destruct Hq as (Q1 & Q2 & Q3 & Q4).
      destruct (result (connect_smpp env (torn_down env w hd)));
        counts; rewrite ?H1, ?H3, ?H4, ?H5, ?Q1, ?Q2, ?Q3, ?Q4;
        repeat split; cbn; lia.
  - destruct Hs as [-> ->].
    pose proof (connect_smpp_spec env w) as Hc.
    pose proof (connect_smpp_quiet env w) as Hq.
    cbv zeta in Hc.
    destruct Hc as (H1 & _ & H3 & H4 & H5 & _).
    destruct Hq as (Q1 & Q2 & Q3 & Q4).
    destruct (result (connect_smpp env w));
      counts; rewrite ?H1, ?H3, ?H4, ?H5, ?Q1, ?Q2, ?Q3, ?Q4;
      repeat split; cbn; lia.
Qed.

(** In a tick, a new client is constructed only in the reconnecting branch,
    and only after [unbind] and [disconnect] of the client at hand both
    returned; with no client at hand it comes right after the warning. *)
Lemma keep_alive_tick_reconnect_order (env : Env) (w : World)
    (pre post : list Event) (hd : nat) (o : option exn) :
  trace (keep_alive_tick env w) = pre ++ ESmpp hd NewClient o :: post ->
  alive w = false /\
  match client w with
  | Some c => pre = [ELog WARNING log_keep_alive_reconnect;
                     ESmpp (handle c) Unbind None;
                     ESmpp (handle c) Disconnect None]
  | None => pre = [ELog WARNING log_keep_alive_reconnect]
  end.
Proof.
  destruct (keep_alive_tick_shape env w) as [_ ->].
  pose proof (keep_alive_try_shape env w) as Hs. cbv zeta in Hs.
  unfold alive.
  assert (Hnone : forall t : list Event,
            count is_reconnect t = 0%nat ->
            t = pre ++ ESmpp hd NewClient o :: post -> False).
  { intros t H0 E. pose proof (@count_split is_reconnect _ _ _ _ E eq_refl).
    lia. }
  assert (Hconn : forall w2 before,
            count is_reconnect before = 0%nat ->
            (before ++ trace (connect_smpp env w2))
            ++ match result (connect_smpp env w2) with
               | Ok _ => [ESleep 30]
               | Raise e => [ELog ERROR (log_keep_alive_failed e);
                             ESleep 5; ESleep 30]
               end
            = pre ++ ESmpp hd NewClient o :: post ->
            pre = before).
  { intros w2 before Hb E.
    pose proof (connect_smpp_spec env w2) as Hc. cbv zeta in Hc.
    destruct Hc as (_ & _ & _ & _ & _ & (o' & rest & Ht & Hrest) & _).
    rewrite Ht in E. rewrite <- app_assoc in E. cbn [app] in E.
    refine (@split_unique is_reconnect before _ _ pre _ post Hb _ E eq_refl).
    destruct (result (connect_smpp env w2)); counts; rewrite Hrest; reflexivity. }
  destruct (client w) as [[h0 st]|]; cbn [state handle] in *.
  - destruct (state_in st [OPEN; BOUND_TRX]).
    + intros E. exfalso.
      destruct (raised (env (calls w))); destruct Hs as [Ht Hr];
        rewrite Ht, Hr in E; (eapply Hnone; [|exact E]; reflexivity).
    + intros E. split; [reflexivity|].
      destruct (raised (env (calls w))).
      { exfalso. destruct Hs as [Ht Hr]. rewrite Ht, Hr in E.
        eapply Hnone; [|exact E]; reflexivity. }
      destruct (raised (env (S (calls w)))).
      { exfalso. destruct Hs as [Ht Hr]. rewrite Ht, Hr in E.
        eapply Hnone; [|exact E]; reflexivity. }
      destruct Hs as [Ht Hr]. rewrite Ht, Hr in E.
      apply (Hconn (torn_down env w h0)); [reflexivity|].
      rewrite <- E.
      destruct (result (connect_smpp env (torn_down env w h0))); reflexivity.
  - intros E. split; [reflexivity|].
    destruct Hs as [Ht Hr]. rewrite Ht, Hr in E.
    apply (Hconn w); [reflexivity|].
    rewrite <- E. destruct (result (connect_smpp env w)); reflexivity.
Qed.

Lemma smpp_keep_alive_unroll (env : Env) (n : nat) (w : World) :
  result (smpp_keep_alive env (S n) w)
  = result (smpp_keep_alive env n (world (keep_alive_tick env w))) /\
  trace (smpp_keep_alive env (S n) w)
  = trace (keep_alive_tick env w)
    ++ trace (smpp_keep_alive env n (world (keep_alive_tick env w))).
Proof.
  destruct (keep_alive_tick_shape env w) as [Hr _]. revert Hr.
  cbn [smpp_keep_alive]. mrun.
  destruct (keep_alive_tick env w) as [[r w1] t1]. mrun. intros ->.
  destruct (smpp_keep_alive env n w1) as [[r2 w2] t2]. split; reflexivity.
Qed.

(** The loop after any number of ticks: still running, one period sleep
    per tick, and each tick either probed or took the reconnecting branch. *)
Lemma smpp_keep_alive_counts (env : Env) (n : nat) :
  forall w,
    let t := trace (smpp_keep_alive env n w) in
    result (smpp_keep_alive env n w) = Ok tt /\
    count is_period t = n /\
    (count is_probe t + count is_reconnect_branch t)%nat = n /\
    (count is_reconnect t <= count is_reconnect_branch t)%nat /\
    (count is_failed_probe t <= count is_probe t)%nat /\
    (count is_unbind t <= count is_reconnect_branch t)%nat /\
    (count is_disconnect t <= count is_reconnect_branch t)%nat.
Proof.
  induction n as [|n IH]; intros w; cbv zeta.
  - repeat split; cbn; lia.
  - destruct (smpp_keep_alive_unroll env n w) as [-> ->].
    specialize (IH (world (keep_alive_tick env w))). cbv zeta in IH.
    destruct IH as (Hr & I1 & I2 & I3 & I4 & I5 & I6).
    pose proof (keep_alive_tick_counts env w) as Ht. cbv zeta in Ht.
    destruct Ht as (T1 & T2 & T3 & T4 & T5 & T6 & T7).
    rewrite !count_app. rewrite T2, T3 in *.
    split; [exact Hr|].
    destruct (alive w); repeat split; lia.
Qed.

(** C5.  The keep-alive loop never ends on an error.  After any number of
    ticks it is still running and has slept one 30-second period per tick.
    In every tick, an outside call that raises makes the [try] block raise,
    the exception is caught, logged and followed by the 5-second back-off
    and then the period sleep; a tick without a failure ends with the period
    sleep alone. *)
Theorem keep_alive_never_stops (env : Env) (ticks : nat) (w : World) :
  result (smpp_keep_alive env ticks w) = Ok tt /\
  count is_period (trace (smpp_keep_alive env ticks w)) = ticks /\
  forall w',
    result (keep_alive_tick env w') = Ok tt /\
    match result (keep_alive_try env w') with
    | Ok _ =>
        no_failure (trace (keep_alive_try env w')) = true /\
        trace (keep_alive_tick env w')
        = trace (keep_alive_try env w') ++ [ESleep 30]
    | Raise e =>
        no_failure (trace (keep_alive_try env w')) = false /\
        trace (keep_alive_tick env w')
        = trace (keep_alive_try env w')
          ++ [ELog ERROR (log_keep_alive_failed e); ESleep 5; ESleep 30]
    end.
Proof.
  pose proof (smpp_keep_alive_counts env ticks w) as Hc. cbv zeta in Hc.
  destruct Hc as (Hr & Hp & _).
  split; [exact Hr|]. split; [exact Hp|].
  intros w'.
  destruct (keep_alive_tick_shape env w') as [Hr' Ht'].
  pose proof (keep_alive_try_failure env w') as Hf.
  split; [exact Hr'|].
  destruct (result (keep_alive_try env w')); split; assumption.
Qed.

(** C4, as the code has it.  A failed probe never ends the loop, and it
    triggers no reconnect: each tick either sends one probe, when a client
    is present and reports the open or the bound-transceiver state, or
    takes the reconnecting branch, when it does not.  So probes that fail
    on all of the ticks leave the run without a single reconnect, unbind or
    disconnect.  In the reconnecting branch a new client is constructed
    only after [unbind] and [disconnect] of the client at hand both
    returned, or right away when there is none. *)
Theorem keep_alive_reconnects_by_state (env : Env) (ticks : nat) (w : World) :
  let t := trace (smpp_keep_alive env ticks w) in
  result (smpp_keep_alive env ticks w) = Ok tt /\
  (count is_probe t + count is_reconnect_branch t)%nat = ticks /\
  (count is_reconnect t <= count is_reconnect_branch t)%nat /\
  (count is_failed_probe t = ticks ->
   count is_reconnect t = 0%nat /\
   count is_unbind t = 0%nat /\
   count is_disconnect t = 0%nat) /\
  forall w',
    count is_probe (trace (keep_alive_tick env w'))
    = (if alive w' then 1 else 0)%nat /\
    count is_reconnect_branch (trace (keep_alive_tick env w'))
    = (if alive w' then 0 else 1)%nat /\
    forall pre hd o post,
      trace (keep_alive_tick env w') = pre ++ ESmpp hd NewClient o :: post ->
      alive w' = false /\
      match client w' with
      | Some c => pre = [ELog WARNING log_keep_alive_reconnect;
                         ESmpp (handle c) Unbind None;
                         ESmpp (handle c) Disconnect None]
      | None => pre = [ELog WARNING log_keep_alive_reconnect]
      end.
Proof.
  cbv zeta.
  pose proof (smpp_keep_alive_counts env ticks w) as Hc. cbv zeta in Hc.
  destruct Hc as (Hr & _ & H2 & H3 & H4 & H5 & H6).
  repeat split; try assumption; try lia.
  - pose proof (keep_alive_tick_counts env w') as Ht. cbv zeta in Ht.
    now destruct Ht as (_ & T2 & _).
  - pose proof (keep_alive_tick_counts env w') as Ht. cbv zeta in Ht.
    now destruct Ht as (_ & _ & T3 & _).
  - now destruct (keep_alive_tick_reconnect_order env w' pre post hd o H).
  - now destruct (keep_alive_tick_reconnect_order env w' pre post hd o H).
Qed.

Lemma keep_alive_reconnects_by_state_witness :
  count is_failed_probe (trace (smpp_keep_alive env_broken_pipe 3 bound_world))
  = 3%nat /\
  count is_reconnect (trace (smpp_keep_alive env_broken_pipe 3 bound_world))
  = 0%nat.
Proof.
  split; [reflexivity|].
  exact (proj1 (proj1 (proj2 (proj2 (proj2
    (keep_alive_reconnects_by_state env_broken_pipe 3 bound_world))))
    eq_refl)).
Defined.

(** C4, as stated, fails when the socket is broken while the client keeps
    reporting the bound state: the probe fails on three ticks in a row, and
    the loop makes no reconnect, no unbind and no disconnect. *)
Lemma three_failed_probes_no_reconnect :
  result (smpp_keep_alive env_broken_pipe 3 bound_world) = Ok tt /\
  count is_failed_probe (trace (smpp_keep_alive env_broken_pipe 3 bound_world))
  = 3%nat /\
  count is_reconnect (trace (smpp_keep_alive env_broken_pipe 3 bound_world))
  <> 3%nat /\
  count is_reconnect (trace (smpp_keep_alive env_broken_pipe 3 bound_world))
  = 0%nat /\
  count is_unbind (trace (smpp_keep_alive env_broken_pipe 3 bound_world))
  = 0%nat /\
  count is_disconnect (trace (smpp_keep_alive env_broken_pipe 3 bound_world))
  = 0%nat.
Proof.
  repeat split. vm_compute. discriminate.
Qed.

(** * Further properties of the module *)

(** ** [connect_smpp], step by step *)

(** X1.  A run of [connect_smpp] is its calls followed by one log
    record, and nothing else.  The calls are made in the order constructor,
    connect, bind_transceiver, set handler, start listener, all on the new
    client, and stop at the first one that raises.  The log record is the
    success message exactly when all five calls returned; otherwise it is
    the error message with the exception of the call that raised, which is
    also the exception [connect_smpp] re-raises. *)
Theorem connect_smpp_sequence (env : Env) (w : World) :
  let run := connect_smpp env w in
  exists k : nat,
    (1 <= k <= 5)%nat /\
    map (fun c => snd (fst c)) (smpp_calls (trace run)) = firstn k connect_steps /\
    Forall (fun c => fst (fst c) = fresh w) (smpp_calls (trace run)) /\
    calls (world run) = (calls w + k)%nat /\
    count is_log (trace run) = 1%nat /\
    match result run with
    | Ok _ =>
        k = 5%nat /\
        map snd (smpp_calls (trace run)) = repeat None 5 /\
        trace run
        = map call_event (smpp_calls (trace run)) ++ [ELog INFO log_connected]
    | Raise e =>
        map snd (smpp_calls (trace run)) = repeat None (k - 1) ++ [Some e] /\
        trace run
        = map call_event (smpp_calls (trace run))
          ++ [ELog ERROR (log_connect_failed e)]
    end.
Proof.
  unfold connect_smpp, try_except, bind, new_client, smpp, logger, emit,
    get_client, raise, outcome, count_call, trace, world, result,
    connect_steps.
  cbn. answer; cbn.
  { exists 1%nat. repeat split; try reflexivity; try (cbn; lia);
      repeat constructor. }
  answer; cbn.
  { exists 2%nat. repeat split; try reflexivity; try (cbn; lia);
      repeat constructor. }
  answer; cbn.
  { exists 3%nat. repeat split; try reflexivity; try (cbn; lia);
      repeat constructor. }
  answer; cbn.
  { exists 4%nat. repeat split; try reflexivity; try (cbn; lia);
      repeat constructor. }
  answer; cbn.
  { exists 5%nat. repeat split; try reflexivity; try (cbn; lia);
      repeat constructor. }
  exists 5%nat. repeat split; try reflexivity; try (cbn; lia);
    repeat constructor.
Qed.

Lemma connect_smpp_client (env : Env) (w : World) :
  let run := connect_smpp env w in
  match raised (env (calls w)) with
  | Some e =>
      result run = Raise e /\
      client (world run) = client w /\
      fresh (world run) = fresh w
  | None =>
      fresh (world run) = S (fresh w) /\
      exists st, client (world run) = Some {| handle := fresh w; state := st |}
  end.
Proof.
  unfold connect_smpp, try_except, bind, new_client, smpp, logger, emit,
    get_client, raise, outcome, count_call, trace, world, result.
  cbn. destruct (raised (env (calls w))) eqn:E0; cbn.
  - repeat split.
  - repeat (answer; cbn); split; eauto.
Qed.

(** X2.  The global [client] is replaced as soon as the constructor
    returns: when a later step of [connect_smpp] raises, the global already
    refers to the new, unconnected client and the previous one is gone.
    When the constructor itself raises, the global is left as it was. *)
Theorem connect_smpp_installs_client (env : Env) (w : World) :
  (forall e, raised (env (calls w)) = Some e ->
     result (connect_smpp env w) = Raise e /\
     client (world (connect_smpp env w)) = client w) /\
  (raised (env (calls w)) = None ->
     exists st,
       client (world (connect_smpp env w))
       = Some {| handle := fresh w; state := st |}).
Proof.
  pose proof (connect_smpp_client env w) as H. cbv zeta in H.
  split.
  - intros e E. rewrite E in H. destruct H as (H1 & H2 & _). now split.
  - intros E. rewrite E in H. now destruct H.
Qed.

Lemma connect_smpp_installs_client_witness :
  result (connect_smpp env_connect_refused closed_world) = Raise ConnectionError /\
  exists st,
    client (world (connect_smpp env_connect_refused closed_world))
    = Some {| handle := 1%nat; state := st |}.
Proof.
  split; [reflexivity|].
  exact (proj2 (connect_smpp_installs_client env_connect_refused closed_world)
           eq_refl).
Defined.

(** ** What each path leaves alone *)

Lemma keeps_queue_bind {A B} (m : M A) (k : A -> M B) :
  keeps_queue m -> (forall v, keeps_queue (k v)) -> keeps_queue (bind m k).
Proof.
  intros Hm Hk w. specialize (Hm w). unfold bind, world in *.
  destruct (m w) as [[[v|e] w1] t1]; cbn [fst snd] in *; [|exact Hm].
  specialize (Hk v w1). unfold world in Hk.
  destruct (k v w1) as [[r w2] t2]. cbn [fst snd] in *.
  destruct Hk as [-> ->]. exact Hm.
Qed.

Lemma keeps_queue_try {A} (m : M A) (c : exn -> bool) (hdl : exn -> M A) :
  keeps_queue m -> (forall e, keeps_queue (hdl e)) ->
  keeps_queue (try_except m c hdl).
Proof.
  intros Hm Hh w. specialize (Hm w). unfold try_except, world in *.
  destruct (m w) as [[[v|e] w1] t1]; cbn [fst snd] in *; [exact Hm|].
  destruct (c e); [|exact Hm].
  specialize (Hh e w1). unfold world in Hh.
  destruct (hdl e w1) as [[r w2] t2]. cbn [fst snd] in *.
  destruct Hh as [-> ->]. exact Hm.
Qed.

Lemma keeps_queue_ret {A} (v : A) : keeps_queue (ret v).
Proof. intros w. split; reflexivity. Qed.

Lemma keeps_queue_raise {A} (e : exn) : keeps_queue (@raise A e).
Proof. intros w. split; reflexivity. Qed.

Lemma keeps_queue_lift {A} (r : Result A) : keeps_queue (lift r).
Proof. intros w. split; reflexivity. Qed.

Lemma keeps_queue_logger l r : keeps_queue (logger l r).
Proof. intros w. split; reflexivity. Qed.

Lemma keeps_queue_sleep q : keeps_queue (sleep q).
Proof. intros w. split; reflexivity. Qed.

Lemma keeps_queue_get_client : keeps_queue get_client.
Proof. intros w. split; reflexivity. Qed.

Lemma keeps_queue_set_client c : keeps_queue (set_client c).
Proof. intros w. split; reflexivity. Qed.

Lemma keeps_queue_smpp env op : keeps_queue (smpp env op).
Proof. intros w. unfold smpp, world. destruct (client w); split; reflexivity. Qed.

Lemma keeps_queue_new_client env : keeps_queue (new_client env).
Proof.
  intros w. unfold new_client, world.
  destruct (raised (env (calls w))); split; reflexivity.
Qed.

Lemma keeps_queue_chat env op : keeps_queue (chat env op).
Proof. intros w. split; reflexivity. Qed.

Create HintDb frame.

#[local] Hint Resolve keeps_queue_bind keeps_queue_try keeps_queue_ret
  keeps_queue_raise keeps_queue_lift keeps_queue_logger keeps_queue_sleep
  keeps_queue_get_client keeps_queue_set_client keeps_queue_smpp
  keeps_queue_new_client keeps_queue_chat : frame.

Ltac frame_step :=
  repeat first
    [ apply keeps_queue_bind | apply keeps_queue_try
    | match goal with
      | |- forall _, _ => intro
      | |- keeps_queue (match ?x with _ => _ end) => destruct x
      | |- keeps_queue (if ?x then _ else _) => destruct x
      | |- keeps_queue (let '(_, _) := ?x in _) => destruct x
      end ];
  auto with frame.

Lemma keeps_queue_connect_smpp env : keeps_queue (connect_smpp env).
Proof. unfold connect_smpp. frame_step. Qed.

Lemma keeps_queue_keep_alive_tick env : keeps_queue (keep_alive_tick env).
Proof.
  pose proof (keeps_queue_connect_smpp env).
  unfold keep_alive_tick, keep_alive_try, client_state_in. frame_step.
Qed.

Lemma keeps_queue_smpp_keep_alive env n : keeps_queue (smpp_keep_alive env n).
Proof.
  pose proof (keeps_queue_keep_alive_tick env).
  induction n; cbn [smpp_keep_alive]; frame_step.
Qed.

Lemma keeps_queue_send_sms env FROM phone message :
  keeps_queue (send_sms env FROM phone message).
Proof.
  pose proof (keeps_queue_connect_smpp env).
  unfold send_sms, client_state_in. frame_step.
Qed.

Lemma keeps_queue_handle_message env FROM user_message :
  keeps_queue (handle_message env FROM user_message).
Proof.
  pose proof (keeps_queue_send_sms env FROM).
  unfold handle_message. frame_step.
Qed.

(** X3.  The sending side never touches the relay queue: whatever the
    gateway and the chat platform answer, [send_sms], [handle_message] and
    any number of keep-alive ticks leave [message_queue] and its count of
    unfinished tasks as they found them. *)
Theorem send_path_leaves_queue (env : Env) (FROM phone message : str)
    (ticks : nat) (w : World) :
  message_queue (world (send_sms env FROM phone message w)) = message_queue w /\
  unfinished_tasks (world (send_sms env FROM phone message w))
  = unfinished_tasks w /\
  message_queue (world (handle_message env FROM message w)) = message_queue w /\
  unfinished_tasks (world (handle_message env FROM message w))
  = unfinished_tasks w /\
  message_queue (world (smpp_keep_alive env ticks w)) = message_queue w /\
  unfinished_tasks (world (smpp_keep_alive env ticks w)) = unfinished_tasks w.
Proof.
  destruct (keeps_queue_send_sms env FROM phone message w) as [H1 H2].
  destruct (keeps_queue_handle_message env FROM message w) as [H3 H3'].
  destruct (keeps_queue_smpp_keep_alive env ticks w) as [H4 H5].
  repeat split; assumption.
Qed.

Lemma handle_incoming_sms_session (pdu : Pdu.t) (w : World) :
  client (world (handle_incoming_sms pdu w)) = client w /\
  fresh (world (handle_incoming_sms pdu w)) = fresh w /\
  calls (world (handle_incoming_sms pdu w)) = calls w.
Proof.
  unfold handle_incoming_sms, incoming_try. mrun.
  destruct (Pdu.command pdu) as [cmd|]; [|repeat split].
  destruct (eq_str cmd (lit "deliver_sm")); cbn [negb]; [|repeat split].
  destruct (Pdu.source_addr pdu) as [src|]; [|repeat split].
  destruct src as [| | |src]; cbn [decode_method]; try solve [repeat split].
  rewrite ascii_decode_ignore.
  destruct (Pdu.short_message pdu) as [raw|]; [|repeat split].
  destruct raw as [| | |raw];
    try solve [rewrite decode_payload_not_bytes by discriminate; mrun;
               repeat split].
  destruct (decode_payload_returns (getattr (Pdu.data_coding pdu) (VInt 0)) raw)
    as [content ->].
  mrun. repeat split.
Qed.

Lemma process_incoming_turn_session (env : Env) (CHAT : str) (w : World) :
  client (world (process_incoming_turn env CHAT w)) = client w /\
  fresh (world (process_incoming_turn env CHAT w)) = fresh w /\
  smpp_calls (trace (process_incoming_turn env CHAT w)) = [].
Proof.
  unfold process_incoming_turn. mrun.
  destruct (message_queue w) as [|[phone content] rest]; mrun.
  - cbn [is_QueueEmpty]. mrun. repeat split.
  - destruct (raised (env (calls w))) as [e|]; mrun.
    + destruct (is_QueueEmpty e); mrun; repeat split.
    + destruct (unfinished_tasks w); mrun; repeat split.
Qed.

Lemma smpp_calls_app (a b : list Event) :
  smpp_calls (a ++ b) = smpp_calls a ++ smpp_calls b.
Proof.
  induction a as [|ev a IH]; [reflexivity|].
  destruct ev; cbn [app smpp_calls]; try assumption.
  cbn [app]. now f_equal.
Qed.

Lemma process_incoming_messages_session (env : Env) (CHAT : str) (n : nat) :
  forall w,
    client (world (process_incoming_messages env CHAT n w)) = client w /\
    fresh (world (process_incoming_messages env CHAT n w)) = fresh w /\
    smpp_calls (trace (process_incoming_messages env CHAT n w)) = [].
Proof.
  induction n as [|n IH]; intros w; [repeat split|].
  cbn [process_incoming_messages]. mrun.
  pose proof (process_incoming_turn_session env CHAT w) as Ht. revert Ht. mrun.
  destruct (process_incoming_turn env CHAT w) as [[[u|e] w1] t1]; mrun;
    intros (H1 & H2 & H3); [|repeat split; assumption].
  specialize (IH w1). revert IH. mrun.
  destruct (process_incoming_messages env CHAT n w1) as [[r w2] t2]. mrun.
  intros (-> & -> & H6). rewrite smpp_calls_app, H3, H6.
  repeat split; assumption.
Qed.

(** X4.  The receiving side never touches the session: the callback makes
    no outside call at all and leaves the global [client] as it is, and
    the consumer, over any number of turns, talks to the chat platform only
    and never to an smpplib client. *)
Theorem receive_path_leaves_session (env : Env) (CHAT : str) (pdu : Pdu.t)
    (turns : nat) (w : World) :
  client (world (handle_incoming_sms pdu w)) = client w /\
  calls (world (handle_incoming_sms pdu w)) = calls w /\
  client (world (process_incoming_messages env CHAT turns w)) = client w /\
  smpp_calls (trace (process_incoming_messages env CHAT turns w)) = [].
Proof.
  destruct (handle_incoming_sms_session pdu w) as (H1 & _ & H2).
  destruct (process_incoming_messages_session env CHAT turns w) as (H3 & _ & H4).
  repeat split; assumption.
Qed.

(** ** More on [send_sms] *)

Lemma send_sms_client (env : Env) (FROM phone message : str) (w : World) :
  option_map handle (client (world (send_sms env FROM phone message w)))
  = if bound w then option_map handle (client w)
    else option_map handle (client (world (connect_smpp env w))).
Proof.
  pose proof (connect_smpp_spec env w) as Hc. revert Hc.
  unfold send_sms, bound. mrun.
  destruct (client w) as [[hd st]|] eqn:Ecl; mrun;
    [destruct (state_in st [BOUND_TRX]) eqn:Est|]; mrun.
  - intros _. rewrite ?Ecl.
    destruct (utf_16_be_encode message) as [b|e]; mrun; rewrite ?Ecl; mrun.
    + destruct (raised (env (calls w))); reflexivity.
    + reflexivity.
  - destruct (connect_smpp env w) as [[[c|e] wc] tc]; mrun;
      intros Hc; [|reflexivity].
    destruct Hc as (_ & _ & _ & _ & _ & _ & _ & _ & _ & -> & st' & Hst).
    destruct (utf_16_be_encode message) as [b|e]; mrun; rewrite ?Hst; mrun.
    + destruct (raised (env (calls wc))); reflexivity.
    + reflexivity.
  - destruct (connect_smpp env w) as [[[c|e] wc] tc]; mrun;
      intros Hc; [|reflexivity].
    destruct Hc as (_ & _ & _ & _ & _ & _ & _ & _ & _ & -> & st' & Hst).
    destruct (utf_16_be_encode message) as [b|e]; mrun; rewrite ?Hst; mrun.
    + destruct (raised (env (calls wc))); reflexivity.
    + reflexivity.
Qed.

(** The events of [send_sms] other than its reconnect and its send. *)
Lemma send_sms_counts (env : Env) (FROM phone message : str) (w : World) :
  count is_unbind (trace (send_sms env FROM phone message w)) = 0%nat /\
  count is_disconnect (trace (send_sms env FROM phone message w)) = 0%nat /\
  count is_probe (trace (send_sms env FROM phone message w)) = 0%nat /\
  count is_reconnect (trace (send_sms env FROM phone message w))
  = (if bound w then 0 else 1)%nat /\
  (utf_16_be_encode message = Raise UnicodeEncodeError ->
   count is_send (trace (send_sms env FROM phone message w)) = 0%nat /\
   result (send_sms env FROM phone message w) = Ok false).
Proof.
  pose proof (send_sms_shape env FROM phone message w) as Hs.
  pose proof (connect_smpp_spec env w) as Hc.
  cbv zeta in Hs, Hc.
  destruct Hc as (H1 & H2 & H3 & H4 & H5 & _).
  destruct (bound w).
  - destruct (utf_16_be_encode message) as [b|e].
    + destruct Hs as (hd & o & Hr & ->).
      destruct o; counts; repeat split; discriminate.
    + destruct Hs as (Hr & ->). counts. repeat split; assumption.
  - destruct (result (connect_smpp env w)) as [c|e].
    + destruct (utf_16_be_encode message) as [b|e].
      * destruct Hs as (hd & o & Hr & ->).
        destruct o; counts; rewrite ?H1, ?H3, ?H4, ?H5;
          repeat split; discriminate.
      * destruct Hs as (Hr & ->). counts. rewrite ?H1, ?H2, ?H3, ?H4, ?H5.
        repeat split; assumption.
    + rewrite Hs. cbn [trace result fst snd]. counts.
      rewrite ?H1, ?H2, ?H3, ?H4, ?H5. repeat split.
Qed.

(** X5.  [send_sms] never unbinds, disconnects or probes.  When it finds
    the session bound it keeps the client it found; when it reconnects and
    the constructor returns, the global refers to the new client and the
    previous one has been dropped without being unbound or disconnected. *)
Theorem send_sms_no_teardown (env : Env) (FROM phone message : str) (w : World) :
  count is_unbind (trace (send_sms env FROM phone message w)) = 0%nat /\
  count is_disconnect (trace (send_sms env FROM phone message w)) = 0%nat /\
  count is_probe (trace (send_sms env FROM phone message w)) = 0%nat /\
  (bound w = true ->
   option_map handle (client (world (send_sms env FROM phone message w)))
   = option_map handle (client w)) /\
  (bound w = false -> raised (env (calls w)) = None ->
   option_map handle (client (world (send_sms env FROM phone message w)))
   = Some (fresh w)).
Proof.
  destruct (send_sms_counts env FROM phone message w) as (H1 & H2 & H3 & _).
  pose proof (send_sms_client env FROM phone message w) as Hcl.
  repeat split; try assumption.
  - intros Hb. now rewrite Hb in Hcl.
  - intros Hb Ha. rewrite Hb in Hcl. rewrite Hcl.
    pose proof (connect_smpp_client env w) as Hc. cbv zeta in Hc.
    rewrite Ha in Hc. destruct Hc as (_ & st & ->). reflexivity.
Qed.

Lemma send_sms_no_teardown_witness :
  option_map handle
    (client (world (send_sms env_ok sender (lit "1") (lit "Hi") bound_world)))
  = Some 0%nat /\
  option_map handle
    (client (world (send_sms env_ok sender (lit "1") (lit "Hi") closed_world)))
  = Some 1%nat.
Proof.
  pose proof (send_sms_no_teardown env_ok sender (lit "1") (lit "Hi")
                bound_world) as Hb.
  pose proof (send_sms_no_teardown env_ok sender (lit "1") (lit "Hi")
                closed_world) as Hc.
  split.
  - exact (proj1 (proj2 (proj2 (proj2 Hb))) eq_refl).
  - exact (proj2 (proj2 (proj2 (proj2 Hc))) eq_refl eq_refl).
Defined.

Lemma utf_16_be_encode_invalid (s : str) :
  valid_text s = false -> utf_16_be_encode s = Raise UnicodeEncodeError.
Proof.
  induction s as [|c s IH]; [discriminate|].
  cbn [valid_text forallb]. rewrite utf_16_be_encode_cons.
  destruct (is_scalar c); cbn [negb andb]; [|reflexivity].
  intros Hs. now rewrite (IH Hs).
Qed.

(** X6.  A text that holds a surrogate code point cannot be encoded:
    [send_sms] then returns [False] and never calls [send_message].  The
    reconnect is not spared: with the session not bound it is still made,
    before the encoding is tried. *)
Theorem send_sms_unencodable (env : Env) (FROM phone message : str) (w : World) :
  valid_text message = false ->
  result (send_sms env FROM phone message w) = Ok false /\
  count is_send (trace (send_sms env FROM phone message w)) = 0%nat /\
  count is_reconnect (trace (send_sms env FROM phone message w))
  = (if bound w then 0 else 1)%nat.
Proof.
  intros Hv. apply utf_16_be_encode_invalid in Hv.
  destruct (send_sms_counts env FROM phone message w) as (_ & _ & _ & H4 & H5).
  destruct (H5 Hv) as [H6 H7]. repeat split; assumption.
Qed.

Lemma send_sms_unencodable_witness :
  valid_text [0xD800] = false /\
  result (send_sms env_ok sender (lit "1") [0xD800] closed_world) = Ok false /\
  count is_reconnect
    (trace (send_sms env_ok sender (lit "1") [0xD800] closed_world)) = 1%nat.
Proof.
  split; [reflexivity|].
  pose proof (send_sms_unencodable env_ok sender (lit "1") [0xD800]
                closed_world eq_refl) as H.
  split; [exact (proj1 H)|exact (proj2 (proj2 H))].
Defined.

(** ** What the codecs guarantee *)

Lemma join_scalar (u1 u2 : N) : is_scalar (join_surrogates u1 u2) = true.
Proof.
  unfold join_surrogates.
  change 0x3FF with (N.ones 10). rewrite !N.land_ones, N.shiftl_mul_pow2.
  change (2 ^ 10) with 1024.
  assert (H1 : u1 mod 1024 < 1024) by (apply N.mod_lt; lia).
  assert (H2 : u2 mod 1024 < 1024) by (apply N.mod_lt; lia).
  revert H1 H2. generalize (u1 mod 1024) (u2 mod 1024). intros a b Ha Hb.
  unfold is_scalar, is_surrogate.
  apply andb_true_iff. split; [apply N.leb_le; lia|].
  apply negb_true_iff, andb_false_iff. right. apply N.leb_gt. lia.
Qed.

Lemma unit_scalar (hi lo : byte) :
  is_surrogate (unit16 hi lo) = false -> is_scalar (unit16 hi lo) = true.
Proof.
  intros Hs. unfold is_scalar. rewrite Hs. cbn [negb].
  rewrite andb_true_r. apply N.leb_le.
  pose proof (unit16_lt hi lo). lia.
Qed.

Lemma cons_ok_inv (c : codepoint) (r : Result str) (s : str) :
  cons_ok c r = Ok s -> exists s', r = Ok s' /\ s = c :: s'.
Proof.
  destruct r as [s'|e]; cbn; [|discriminate].
  intros H. apply Ok_inj in H. eauto.
Qed.

Lemma on_error_inv (errors : Errors) (r : Result str) (s : str) :
  on_error errors r = Ok s ->
  exists s', r = Ok s' /\ (s = s' \/ s = REPLACEMENT :: s').
Proof.
  destruct errors; cbn; [discriminate| |].
  - intros ->. eauto.
  - destruct r as [s'|e]; [|discriminate].
    intros H. apply Ok_inj in H. eauto.
Qed.

(** Whatever the bytes and the error mode, a text the UTF-16 decoder
    returns holds no surrogate and nothing beyond the Unicode range. *)
Lemma utf_16_be_decode_valid (errors : Errors) (n : nat) :
  forall raw s,
    (List.length raw <= n)%nat ->
    utf_16_be_decode errors raw = Ok s -> valid_text s = true.
Proof.
  induction n as [n IH] using (well_founded_induction Nat.lt_wf_0).
  intros raw s Hlen.
  assert (Herr : forall rest r s0,
            (List.length rest < n)%nat ->
            utf_16_be_decode errors rest = r ->
            on_error errors r = Ok s0 -> valid_text s0 = true).
  { intros rest r s0 Hlt <- H. apply on_error_inv in H.
    destruct H as (s' & Hs' & [->| ->]).
    - apply (IH (List.length rest) Hlt rest s' (le_n _) Hs').
    - cbn. apply (IH (List.length rest) Hlt rest s' (le_n _) Hs'). }
  destruct raw as [|hi [|lo rest]].
  - cbn. intros H. apply Ok_inj in H. now subst s.
  - cbn [utf_16_be_decode]. intros H. apply on_error_inv in H.
    destruct H as (s' & Hs' & [->| ->]); apply Ok_inj in Hs'; now subst s'.
  - cbn [List.length] in Hlen. rewrite utf_16_be_decode_unit.
    destruct (is_surrogate (unit16 hi lo)) eqn:Hsur; cbn [negb].
    + destruct (is_high_surrogate (unit16 hi lo)); cbn [negb].
      * destruct rest as [|hi2 [|lo2 rest']].
        -- intros H. apply on_error_inv in H.
           destruct H as (s' & Hs' & [->| ->]); apply Ok_inj in Hs'; now subst s'.
        -- intros H. apply on_error_inv in H.
           destruct H as (s' & Hs' & [->| ->]); apply Ok_inj in Hs'; now subst s'.
        -- cbn [List.length] in Hlen.
           destruct (is_low_surrogate (unit16 hi2 lo2)).
           ++ intros H. apply cons_ok_inv in H. destruct H as (s' & Hs' & ->).
              cbn [valid_text forallb]. rewrite join_scalar. cbn [andb].
              apply (IH (List.length rest')) with (raw := rest'); [lia|lia|].
              exact Hs'.
           ++ apply (Herr (hi2 :: lo2 :: rest')); [cbn [List.length]; lia|].
              reflexivity.
      * apply (Herr rest); [lia|reflexivity].
    + intros H. apply cons_ok_inv in H. destruct H as (s' & Hs' & ->).
      cbn [valid_text forallb]. rewrite (unit_scalar hi lo Hsur). cbn [andb].
      apply (IH (List.length rest)) with (raw := rest); [lia|lia|exact Hs'].
Qed.

Lemma latin_1_valid (raw : bytes) : valid_text (map byte_val raw) = true.
Proof.
  induction raw as [|b raw IH]; [reflexivity|].
  cbn [map valid_text forallb]. apply andb_true_iff. split; [|exact IH].
  pose proof (byte_val_lt b). unfold is_scalar, is_surrogate.
  apply andb_true_iff. split; [apply N.leb_le; lia|].
  apply negb_true_iff, andb_false_iff. left. apply N.leb_gt. lia.
Qed.

Lemma decode_payload_valid (coding : value) (raw : bytes) (s : str) :
  decode_payload coding (VBytes raw) = Ok s -> valid_text s = true.
Proof.
  unfold decode_payload, decode_method, latin_1_decode.
  destruct (eq_int coding 0).
  - intros H. apply Ok_inj in H. subst s. apply latin_1_valid.
  - destruct (eq_int coding 8).
    + apply (@utf_16_be_decode_valid Ignore (List.length raw) raw s (le_n _)).
    + intros H. apply Ok_inj in H. subst s. apply latin_1_valid.
Qed.

Lemma ascii_phone (src : bytes) :
  forallb (fun c => c <? 128)
          (map byte_val (filter (fun b => byte_val b <? 128) src)) = true.
Proof.
  induction src as [|b src IH]; [reflexivity|].
  cbn [filter]. destruct (byte_val b <? 128) eqn:E; [|exact IH].
  cbn [map forallb]. now rewrite E.
Qed.

(** What the callback appends to the queue, read off the frame. *)
Lemma handle_incoming_sms_queued (pdu : Pdu.t) (w : World) :
  message_queue (world (handle_incoming_sms pdu w)) = message_queue w \/
  exists src raw content,
    Pdu.command pdu = Some (VStr (lit "deliver_sm")) /\
    Pdu.source_addr pdu = Some (VBytes src) /\
    Pdu.short_message pdu = Some (VBytes raw) /\
    decode_payload (getattr (Pdu.data_coding pdu) (VInt 0)) (VBytes raw)
    = Ok content /\
    message_queue (world (handle_incoming_sms pdu w))
    = message_queue w
      ++ [(map byte_val (filter (fun b => byte_val b <? 128) src), content)].
Proof.
  unfold handle_incoming_sms, incoming_try. mrun.
  destruct (Pdu.command pdu) as [cmd|]; [|now left].
  destruct (eq_str cmd (lit "deliver_sm")) eqn:Ecmd; cbn [negb]; [|now left].
  apply eq_str_eq in Ecmd. subst cmd.
  destruct (Pdu.source_addr pdu) as [src|]; [|now left].
  destruct src as [| | |src]; cbn [decode_method]; try solve [now left].
  rewrite ascii_decode_ignore.
  destruct (Pdu.short_message pdu) as [raw|]; [|now left].
  destruct raw as [| | |raw];
    try solve [rewrite decode_payload_not_bytes by discriminate; mrun;
               now left].
  destruct (decode_payload_returns (getattr (Pdu.data_coding pdu) (VInt 0)) raw)
    as [content Hc].
  rewrite Hc. mrun. right. exists src, raw, content.
  repeat split; try exact Hc.
Qed.

(** X7.  Every message the callback queues can be taken back by the
    sending side: the number holds ASCII characters only (other bytes of
    the source address are dropped) and the text, whatever the payload
    bytes and the indicator, can be encoded by [send_sms]. *)
Theorem callback_queues_relayable (pdu : Pdu.t) (w : World) :
  Forall (fun m => relayable m = true) (message_queue w) ->
  Forall (fun m => relayable m = true /\
                   exists b, utf_16_be_encode (snd m) = Ok b)
         (message_queue (world (handle_incoming_sms pdu w))).
Proof.
  intros Hq.
  assert (Hold : Forall (fun m => relayable m = true /\
                            exists b, utf_16_be_encode (snd m) = Ok b)
                        (message_queue w)).
  { eapply Forall_impl; [|exact Hq]. intros m Hm. split; [exact Hm|].
    unfold relayable in Hm. apply andb_true_iff in Hm.
    now apply utf_16_be_encode_valid. }
  destruct (handle_incoming_sms_queued pdu w)
    as [->|(src & raw & content & _ & _ & _ & Hd & ->)]; [exact Hold|].
  apply Forall_app. split; [exact Hold|].
  constructor; [|constructor].
  pose proof (decode_payload_valid _ _ Hd) as Hv.
  cbn [snd]. split; [|now apply utf_16_be_encode_valid].
  unfold relayable. cbn [fst snd]. now rewrite ascii_phone, Hv.
Qed.

Lemma callback_queues_relayable_witness :
  Forall (fun m => relayable m = true /\
                   exists b, utf_16_be_encode (snd m) = Ok b)
         (message_queue
            (world (handle_incoming_sms
                      (deliver_sm "15559876543" [xd8; x00; x00; x41]
                                  (Some (VInt 8)))
                      initial_world))).
Proof.
  apply (callback_queues_relayable
           (deliver_sm "15559876543" [xd8; x00; x00; x41] (Some (VInt 8)))
           initial_world).
  constructor.
Defined.

(** ** Round trips *)

(** The payload and the data coding of a [send_message] call. *)
Lemma send_event_payload (env : Env) (FROM phone message : str) (w : World)
    (hd : nat) (kw : SubmitArgs) (o : option exn) :
  In (ESmpp hd (SendMessage kw) o) (trace (send_sms env FROM phone message w)) ->
  utf_16_be_encode message = Ok (short_message kw) /\ data_coding kw = 8.
Proof.
  intros Hin.
  pose proof (send_sms_shape env FROM phone message w) as Hshape.
  pose proof (connect_smpp_spec env w) as Hc.
  cbv zeta in Hshape, Hc.
  destruct Hc as (_ & Hsend & _).
  assert (Hprelude : ~ In (ESmpp hd (SendMessage kw) o)
            (if bound w then []
             else ELog WARNING log_send_reconnect :: trace (connect_smpp env w))).
  { destruct (bound w); [exact (fun F => F)|].
    intros [F|F]; [discriminate|].
    apply (count_zero_not_in is_send _ _ Hsend) in F. discriminate. }
  destruct (if bound w then Ok (client w) else result (connect_smpp env w))
    as [c|e].
  - destruct (utf_16_be_encode message) as [b|e] eqn:Hb.
    + destruct Hshape as (hd' & o' & _ & Ht). rewrite Ht in Hin.
      apply in_app_or in Hin. destruct Hin as [F|[E|[E|[]]]].
      * now apply Hprelude in F.
      * injection E as _ <- _. split; reflexivity.
      * destruct o'; discriminate.
    + destruct Hshape as (_ & Ht). rewrite Ht in Hin.
      apply in_app_or in Hin. destruct Hin as [F|[E|[]]].
      * now apply Hprelude in F.
      * discriminate.
  - rewrite Hshape in Hin. cbn [trace snd] in Hin.
    apply in_app_or in Hin. destruct Hin as [F|[E|[]]].
    + now apply Hprelude in F.
    + discriminate.
Qed.

(** X8.  What [send_sms] sends comes back unchanged: a delivery frame
    that carries the payload and the data coding of a [send_message] call
    makes the callback queue exactly the body that was sent, with the
    ASCII part of the frame's source address as the number. *)
Theorem sms_loopback (env : Env) (FROM phone message : str) (w : World)
    (hd : nat) (kw : SubmitArgs) (o : option exn) (src : bytes) (w2 : World) :
  In (ESmpp hd (SendMessage kw) o) (trace (send_sms env FROM phone message w)) ->
  let pdu := {| Pdu.command := Some (VStr (lit "deliver_sm"));
                Pdu.source_addr := Some (VBytes src);
                Pdu.short_message := Some (VBytes (short_message kw));
                Pdu.data_coding := Some (VInt (Z.of_N (data_coding kw))) |} in
  result (handle_incoming_sms pdu w2) = Ok tt /\
  message_queue (world (handle_incoming_sms pdu w2))
  = message_queue w2
    ++ [(map byte_val (filter (fun b => byte_val b <? 128) src), message)].
Proof.
  intros Hin. destruct (send_event_payload _ _ _ _ _ _ _ _ Hin) as [Henc Hdc].
  cbv zeta. rewrite Hdc.
  pose proof (utf_16_be_roundtrip Ignore message Henc) as Hrt.
  unfold handle_incoming_sms, incoming_try.
  cbn [Pdu.command Pdu.source_addr Pdu.short_message Pdu.data_coding].
  replace (eq_str (VStr (lit "deliver_sm")) (lit "deliver_sm")) with true
    by reflexivity.
  cbn [negb decode_method getattr]. rewrite ascii_decode_ignore.
  unfold decode_payload.
  change (eq_int (VInt (Z.of_N 8)) 0) with false.
  change (eq_int (VInt (Z.of_N 8)) 8) with true.
  cbn [decode_method]. rewrite Hrt.
  mrun. split; reflexivity.
Qed.

Lemma sms_loopback_witness :
  message_queue
    (world (handle_incoming_sms
              {| Pdu.command := Some (VStr (lit "deliver_sm"));
                 Pdu.source_addr := Some (VBytes (ascii_bytes "15559876543"));
                 Pdu.short_message := Some (VBytes (short_message hi_args));
                 Pdu.data_coding :=
                   Some (VInt (Z.of_N (data_coding hi_args))) |}
              initial_world))
  = [] ++ [(map byte_val
              (filter (fun b => byte_val b <? 128)
                      (ascii_bytes "15559876543")),
            lit "Hi")].
Proof.
  exact (proj2 (sms_loopback env_ok sender (lit "15551234567") (lit "Hi")
                  bound_world 0%nat hi_args None (ascii_bytes "15559876543")
                  initial_world (or_introl eq_refl))).
Defined.

Lemma length_encode_unit (u : N) : List.length (encode_unit u) = 2%nat.
Proof. reflexivity. Qed.

(** X9.  The payload [send_sms] builds takes two bytes for each character
    of the body, and two more for each character outside the basic plane;
    nothing is cut off or split, however long the body is. *)
Theorem payload_length (s : str) (b : bytes) :
  utf_16_be_encode s = Ok b ->
  List.length b
  = (2 * List.length s + 2 * List.length (supplementary s))%nat.
Proof.
  revert b. induction s as [|c s IH]; intros b Hb.
  - apply Ok_inj in Hb. now subst b.
  - rewrite utf_16_be_encode_cons in Hb.
    destruct (is_scalar c); cbv beta iota delta [negb] in Hb; [|discriminate].
    destruct (utf_16_be_encode s) as [tl|e]; [|discriminate].
    specialize (IH tl eq_refl).
    unfold supplementary in *. cbn [filter List.length].
    destruct (c <? 0x10000) eqn:Hc; apply Ok_inj in Hb; subst b;
      rewrite ?length_app, !length_encode_unit, IH.
    + apply N.ltb_lt in Hc.
      replace (0x10000 <=? c) with false by (symmetry; apply N.leb_gt; lia).
      lia.
    + apply N.ltb_ge in Hc.
      replace (0x10000 <=? c) with true by (symmetry; apply N.leb_le; lia).
      cbn [List.length]. lia.
Qed.

Lemma payload_length_witness :
  List.length (short_message hi_args)
  = (2 * List.length (lit "Hi") + 2 * List.length (supplementary (lit "Hi")))%nat.
Proof.
  exact (payload_length (lit "Hi") eq_refl).
Defined.

Lemma byte_of_val (b : byte) : byte_of (byte_val b) = b.
Proof.
  unfold byte_of, byte_val.
  rewrite N.mod_small by (pose proof (Byte.to_N_bounded b); lia).
  now rewrite Byte.of_to_N.
Qed.

(** X10.  The single-byte fallback loses nothing: under every indicator
    other than 8 the decoded text has one character per payload byte, and
    the bytes can be read back from it. *)
Theorem latin_1_fallback_lossless (coding : value) (raw : bytes) (s : str) :
  eq_int coding 8 = false ->
  decode_payload coding (VBytes raw) = Ok s ->
  List.length s = List.length raw /\ map byte_of s = raw.
Proof.
  intros H8. unfold decode_payload, decode_method, latin_1_decode.
  rewrite H8. destruct (eq_int coding 0); intros H; apply Ok_inj in H;
    subst s; rewrite length_map, map_map; (split; [reflexivity|]);
    rewrite <- (map_id raw) at 2; apply map_ext; intros b; apply byte_of_val.
Qed.

Lemma latin_1_fallback_lossless_witness :
  List.length (lit "Hi") = List.length [x48; x69] /\
  map byte_of (lit "Hi") = [x48; x69].
Proof.
  exact (latin_1_fallback_lossless (VInt 0) [x48; x69] eq_refl eq_refl).
Defined.

(** ** More on the chat handler *)

Lemma split_space_1_cases (s : str) :
  (split_space_1 s = [s] /\ ~ In 32 s) \/
  (exists a b, split_space_1 s = [a; b] /\ s = a ++ 32 :: b /\ ~ In 32 a).
Proof.
  induction s as [|c s IH].
  - left. split; [reflexivity|]. intros [].
  - cbn [split_space_1]. destruct (c =? 32) eqn:E.
    + apply N.eqb_eq in E. subst c. right. exists [], s.
      repeat split. intros [].
    + apply N.eqb_neq in E.
      destruct IH as [[-> Hn]|(a & b & -> & -> & Hn)].
      * left. split; [reflexivity|]. intros [F|F]; [now apply E|now apply Hn].
      * right. exists (c :: a), b. repeat split.
        intros [F|F]; [now apply E|now apply Hn].
Qed.

(** X11.  Splitting a chat message loses nothing.  Unpacking the split
    fails, with [ValueError], exactly when the message holds no space;
    otherwise the number and the body, put together again with one space,
    are the message, and the number holds no space (the body may hold
    more, and either part may be empty). *)
Theorem split_unpack (s : str) :
  match unpack_2 (split_space_1 s) with
  | Ok (a, b) => s = a ++ 32 :: b /\ ~ In 32 a
  | Raise e => e = ValueError /\ ~ In 32 s
  end.
Proof.
  destruct (split_space_1_cases s) as [[-> Hn]|(a & b & -> & -> & Hn)].
  - cbn. now split.
  - cbn. now split.
Qed.

(** X12.  Whatever the message and whatever the outside answers, the last
    thing [handle_message] does is a reply to the user, and it raises
    exactly when that reply raised. *)
Theorem handle_message_ends_with_reply (env : Env) (FROM user_message : str)
    (w : World) :
  exists before r o,
    trace (handle_message env FROM user_message w)
    = before ++ [EChat (ReplyTextOp r) o] /\
    result (handle_message env FROM user_message w)
    = match o with
      | Some e => Raise e
      | None => Ok tt
      end.
Proof.
  unfold handle_message.
  destruct (split_space_1_cases user_message)
    as [[-> Hn]|(phone & message & -> & _ & Hn)].
  - cbn [unpack_2]. mrun. cbn [is_ValueError]. mrun.
    exists [], reply_format_error, (raised (env (calls w))).
    destruct (raised (env (calls w))); split; reflexivity.
  - cbn [unpack_2]. mrun.
    destruct (send_sms_never_raises env FROM phone message w) as [success Hs].
    revert Hs. mrun.
    destruct (send_sms env FROM phone message w) as [[r ws] ts].
    mrun. intros ->.
    destruct success; mrun;
      (destruct (raised (env (calls ws))) as [e|] eqn:Ea; mrun;
       [destruct (is_ValueError e); mrun|]).
    + exists (ts ++ [EChat (ReplyTextOp (reply_sent message phone)) (Some e)]),
        reply_format_error, (raised (env (S (calls ws)))).
      destruct (raised (env (S (calls ws)))); split; reflexivity.
    + exists ts, (reply_sent message phone), (Some e). split; reflexivity.
    + exists ts, (reply_sent message phone), None. split; reflexivity.
    + exists (ts ++ [EChat (ReplyTextOp reply_send_failed) (Some e)]),
        reply_format_error, (raised (env (S (calls ws)))).
      destruct (raised (env (S (calls ws)))); split; reflexivity.
    + exists ts, reply_send_failed, (Some e). split; reflexivity.
    + exists ts, reply_send_failed, None. split; reflexivity.
Qed.

(** X13.  A body that cannot be encoded is reported to the user as a
    failed send, not as a format error: after [send_sms] the first reply
    is the failure notice. *)
Theorem handle_message_unencodable (env : Env) (FROM phone message : str)
    (w : World) :
  ~ In 32 phone -> valid_text message = false ->
  exists o rest,
    trace (handle_message env FROM (phone ++ 32 :: message) w)
    = trace (send_sms env FROM phone message w)
      ++ EChat (ReplyTextOp reply_send_failed) o :: rest.
Proof.
  intros Hn Hv. unfold handle_message.
  rewrite split_space_1_first by exact Hn.
  cbn [unpack_2]. mrun.
  apply utf_16_be_encode_invalid in Hv.
  destruct (send_sms_counts env FROM phone message w) as (_ & _ & _ & _ & H5).
  destruct (H5 Hv) as [_ Hr]. revert Hr. mrun.
  destruct (send_sms env FROM phone message w) as [[r ws] ts].
  mrun. intros ->. mrun.
  destruct (raised (env (calls ws))) as [e|] eqn:Ea; mrun;
    [destruct (is_ValueError e); mrun|];
    eexists _, _; tnorm; reflexivity.
Qed.

Lemma handle_message_unencodable_witness :
  exists o rest,
    trace (handle_message env_ok sender (lit "1" ++ 32 :: [0xDC00]) bound_world)
    = trace (send_sms env_ok sender (lit "1") [0xDC00] bound_world)
      ++ EChat (ReplyTextOp reply_send_failed) o :: rest.
Proof.
  apply (handle_message_unencodable env_ok sender (lit "1") [0xDC00]
           bound_world).
  - cbv. intuition discriminate.
  - reflexivity.
Defined.

(** ** More on the consumer *)

(** X14.  With nothing in the queue the consumer only waits: over any
    number of turns it stays in its loop, calls nothing outside, and each
    turn is the one-second wait on the queue followed by the tenth of a
    second of sleep; the globals are untouched. *)
Theorem process_incoming_messages_idle (env : Env) (CHAT : str) (turns : nat)
    (w : World) :
  message_queue w = [] ->
  process_incoming_messages env CHAT turns w
  = (Ok tt, w, List.concat (repeat [EQueueWait 1; ESleep (1 # 10)] turns)).
Proof.
  intros Hq. induction turns as [|n IH]; [reflexivity|].
  cbn [process_incoming_messages repeat List.concat].
  unfold bind at 1. unfold process_incoming_turn at 1. mrun.
  rewrite Hq. cbn [is_QueueEmpty]. mrun.
  rewrite IH. reflexivity.
Qed.

Lemma process_incoming_messages_idle_witness :
  process_incoming_messages env_network_down chat_id 3 initial_world
  = (Ok tt, initial_world,
     List.concat (repeat [EQueueWait 1; ESleep (1 # 10)] 3)).
Proof.
  exact (process_incoming_messages_idle env_network_down chat_id 3
           initial_world eq_refl).
Defined.

Lemma relay_step_accounting (env : Env) (CHAT : str) (s : RelayState) (a : Action) :
  (List.length (message_queue (relay_world s))
   <= unfinished_tasks (relay_world s))%nat ->
  (forall e, relay_ended s = Some e ->
     exists ph c, In (EChat (BotSendMessage CHAT ph c) (Some e)) (relay_trace s)) ->
  (List.length (message_queue (relay_world (relay_step env CHAT s a)))
   <= unfinished_tasks (relay_world (relay_step env CHAT s a)))%nat /\
  (forall e, relay_ended (relay_step env CHAT s a) = Some e ->
     exists ph c, In (EChat (BotSendMessage CHAT ph c) (Some e))
                     (relay_trace (relay_step env CHAT s a))).
Proof.
  destruct s as [[w t] ended].
  unfold relay_ended, relay_world, relay_trace, relay_step. cbn [fst snd].
  intros Hlen Hend. destruct a as [pdu|].
  - pose proof (handle_incoming_sms_effect pdu w) as He. cbv zeta in He.
    destruct (handle_incoming_sms pdu w) as [[r w'] t'].
    unfold trace, world in He. cbn [fst snd] in *. split.
    + destruct He as [(ph & c & cd & raw & _ & -> & ->)|(_ & -> & ->)].
      * rewrite length_app. cbn. lia.
      * exact Hlen.
    + intros e E. destruct (Hend e E) as (ph & c & Hin).
      exists ph, c. apply in_or_app. now left.
  - destruct ended as [e0|]; [now split|].
    pose proof (process_incoming_turn_effect env CHAT w) as He.
    cbv zeta in He.
    destruct (process_incoming_turn env CHAT w) as [[r w'] t'].
    unfold trace, world, result in He. cbn [fst snd] in *.
    destruct (message_queue w) as [|[ph c] rest].
    + destruct He as (-> & _ & -> & ->). split; [cbn; lia|discriminate].
    + destruct He as (-> & He). cbn [List.length] in Hlen.
      destruct (raised (env (calls w))) as [e1|].
      * destruct He as (-> & -> & ->). split; [lia|].
        intros e E. exists ph, c. apply in_or_app. right.
        destruct (is_QueueEmpty e1); [discriminate|].
        injection E as <-. cbn. auto.
      * destruct (unfinished_tasks w) as [|n]; [lia|].
        destruct He as (-> & _ & ->). split; [lia|discriminate].
Qed.

(** X15.  In every run of the two threads from the module's start, the
    count of unfinished tasks covers the queue, so [task_done] is never
    called once too often: when the consumer coroutine has ended, the
    exception that ended it is one that [bot.send_message] raised. *)
Theorem consumer_ends_only_on_forward (env : Env) (CHAT : str)
    (acts : list Action) :
  (List.length (message_queue (relay_world (relay env CHAT acts relay_start)))
   <= unfinished_tasks (relay_world (relay env CHAT acts relay_start)))%nat /\
  forall e,
    relay_ended (relay env CHAT acts relay_start) = Some e ->
    exists ph c,
      In (EChat (BotSendMessage CHAT ph c) (Some e))
         (relay_trace (relay env CHAT acts relay_start)).
Proof.
  assert (Hgen : forall s,
    (List.length (message_queue (relay_world s))
     <= unfinished_tasks (relay_world s))%nat ->
    (forall e, relay_ended s = Some e ->
       exists ph c, In (EChat (BotSendMessage CHAT ph c) (Some e))
                       (relay_trace s)) ->
    (List.length (message_queue (relay_world (relay env CHAT acts s)))
     <= unfinished_tasks (relay_world (relay env CHAT acts s)))%nat /\
    (forall e, relay_ended (relay env CHAT acts s) = Some e ->
       exists ph c, In (EChat (BotSendMessage CHAT ph c) (Some e))
                       (relay_trace (relay env CHAT acts s)))).
  { induction acts as [|a acts IH]; intros s H1 H2; [now split|].
    cbn [relay fold_left].
    destruct (@relay_step_accounting env CHAT s a H1 H2) as [H1' H2'].
    now apply IH. }
  apply Hgen; [apply le_n|discriminate].
Qed.

Lemma consumer_ends_only_on_forward_witness :
  exists ph c,
    In (EChat (BotSendMessage chat_id ph c) (Some NetworkError))
       (relay_trace
          (relay env_network_down chat_id
             [Deliver (deliver_sm "15559876543" [x48; x69] None); Consume]
             relay_start)).
Proof.
  exact (proj2 (consumer_ends_only_on_forward env_network_down chat_id
                  [Deliver (deliver_sm "15559876543" [x48; x69] None); Consume])
           NetworkError eq_refl).
Defined.

(** ** The keep-alive loop over many ticks *)

Lemma smpp_keep_alive_unroll_world (env : Env) (n : nat) (w : World) :
  world (smpp_keep_alive env (S n) w)
  = world (smpp_keep_alive env n (world (keep_alive_tick env w))).
Proof.
  destruct (keep_alive_tick_shape env w) as [Hr _]. revert Hr.
  cbn [smpp_keep_alive]. mrun.
  destruct (keep_alive_tick env w) as [[r w1] t1]. mrun. intros ->.
  destruct (smpp_keep_alive env n w1) as [[r2 w2] t2]. reflexivity.
Qed.

(** A tick in which [unbind] raises: nothing else is called, and the
    global still refers to the same client. *)
Lemma keep_alive_tick_unbind_raises (env : Env) (w : World) (c : Client)
    (e : exn) :
  client w = Some c -> alive w = false -> raised (env (calls w)) = Some e ->
  keep_alive_tick env w
  = (Ok tt,
     count_call w (Some {| handle := handle c;
                           state := state_after (env (calls w)) |}) (fresh w),
     [ELog WARNING log_keep_alive_reconnect;
      ESmpp (handle c) Unbind (Some e);
      ELog ERROR (log_keep_alive_failed e); ESleep 5; ESleep 30]).
Proof.
  unfold alive. intros Hc. rewrite Hc. intros Ha He.
  unfold keep_alive_tick, keep_alive_try. mrun.
  repeat (progress (rewrite ?Hc, ?Ha, ?He); mrun).
  reflexivity.
Qed.

(** X16.  The monitor can get stuck.  With a client at hand that reports
    neither open nor bound, and an [unbind] that raises on every tick, no
    tick ever reaches [connect_smpp]: after any number of ticks there has
    been one failed [unbind] per tick, no [disconnect], no new client, and
    the global still refers to the same client. *)
Theorem keep_alive_stuck_on_unbind (env : Env) (ticks : nat) :
  unreachable env ->
  forall w c,
    client w = Some c -> alive w = false ->
    count is_unbind (trace (smpp_keep_alive env ticks w)) = ticks /\
    count is_disconnect (trace (smpp_keep_alive env ticks w)) = 0%nat /\
    count is_reconnect (trace (smpp_keep_alive env ticks w)) = 0%nat /\
    option_map handle (client (world (smpp_keep_alive env ticks w)))
    = Some (handle c).
Proof.
  intros Henv. induction ticks as [|n IH]; intros w c Hc Ha.
  - cbn. rewrite Hc. repeat split.
  - destruct (smpp_keep_alive_unroll env n w) as [_ ->].
    rewrite smpp_keep_alive_unroll_world.
    destruct (raised (env (calls w))) as [e|] eqn:He;
      [|now destruct (proj1 (Henv (calls w)))].
    rewrite (keep_alive_tick_unbind_raises env w Hc Ha He).
    cbn [trace world fst snd].
    destruct (IH (count_call w
                    (Some {| handle := handle c;
                             state := state_after (env (calls w)) |})
                    (fresh w))
                 {| handle := handle c; state := state_after (env (calls w)) |}
                 eq_refl) as (I1 & I2 & I3 & I4).
    { unfold alive. cbn [client count_call state].
      exact (proj2 (Henv (calls w))). }
    rewrite !count_app, I1, I2, I3, I4. repeat split.
Qed.

Lemma env_network_down_unreachable : unreachable env_network_down.
Proof. intros k. split; [discriminate|reflexivity]. Qed.

Lemma keep_alive_stuck_on_unbind_witness :
  count is_unbind (trace (smpp_keep_alive env_network_down 4 closed_world))
  = 4%nat /\
  count is_reconnect (trace (smpp_keep_alive env_network_down 4 closed_world))
  = 0%nat.
Proof.
  pose proof (keep_alive_stuck_on_unbind 4 env_network_down_unreachable
                closed_world eq_refl eq_refl) as H.
  split; [exact (proj1 H)|exact (proj1 (proj2 (proj2 H)))].
Defined.






(** ** Start-up and shutdown *)

Ltac lrun :=
  cbv beta iota zeta delta
    [bindL retL try_exceptL base emitL outside outcome set_client count_call
     resultL worldL traceL trace world result fst snd is_Exception];
  cbn [app map state handle client fresh message_queue unfinished_tasks calls].

Lemma base_events_app (a b : list Lifecycle) :
  base_events (a ++ b) = base_events a ++ base_events b.
Proof.
  induction a as [|ev a IH]; [reflexivity|].
  destruct ev; cbn [app base_events]; try assumption.
  cbn [app]. now f_equal.
Qed.

Lemma launched_app (a b : list Lifecycle) :
  launched (a ++ b) = launched a ++ launched b.
Proof.
  induction a as [|ev a IH]; [reflexivity|].
  destruct ev; cbn [app launched]; try assumption; cbn [app]; now f_equal.
Qed.

Lemma base_events_map (t : list Event) : base_events (map Base t) = t.
Proof. induction t as [|ev t IH]; [reflexivity|]. cbn. now f_equal. Qed.

Lemma launched_map (t : list Event) : launched (map Base t) = [].
Proof. induction t as [|ev t IH]; [reflexivity|]. exact IH. Qed.



Ltac lnorm :=
  cbn [app base_events launched];
  rewrite ?base_events_app, ?launched_app, ?base_events_map, ?launched_map,
    ?app_nil_r;
  cbn [app base_events launched hd_error].

(** X19.  [main] registers [cleanup] first and connects before anything
    else.  When that first connect raises, [main] raises the same
    exception and starts nothing: no keep-alive thread, no chat
    application, no consumer task, no polling.  Otherwise it starts the
    keep-alive thread, builds the application, adds the two handlers,
    creates the consumer task and polls, in that order, stopping at the
    first step that raises.  [connect_smpp] is the only function of the
    module that [main] runs itself, and it runs it once. *)
Theorem main_start_up (env : Env) (w : World) :
  hd_error (traceL (main env w)) = Some AtexitRegister /\
  base_events (traceL (main env w)) = trace (connect_smpp env w) /\
  match result (connect_smpp env w) with
  | Raise e =>
      resultL (main env w) = Raise e /\ launched (traceL (main env w)) = []
  | Ok _ =>
      exists k : nat,
        (1 <= k <= 6)%nat /\
        map fst (launched (traceL (main env w))) = firstn k launch_order /\
        match resultL (main env w) with
        | Ok _ =>
            k = 6%nat /\
            map snd (launched (traceL (main env w))) = repeat None 6
        | Raise e =>
            map snd (launched (traceL (main env w)))
            = repeat None (k - 1) ++ [Some e]
        end
  end.
Proof.
  unfold main, launch_order. lrun.
  destruct (connect_smpp env w) as [[[c|e] wc] tc]; lrun; lnorm.
  2:{ repeat split. }
  destruct (raised (env (calls wc))) eqn:E1; lrun; lnorm.
  { repeat split. exists 1%nat. repeat split; cbn; lia. }
  destruct (raised (env (S (calls wc)))) eqn:E2; lrun; lnorm.
  { repeat split. exists 2%nat. repeat split; cbn; lia. }
  destruct (raised (env (S (S (calls wc))))) eqn:E3; lrun; lnorm.
  { repeat split. exists 3%nat. repeat split; cbn; lia. }
  destruct (raised (env (S (S (S (calls wc)))))) eqn:E4; lrun; lnorm.
  { repeat split. exists 4%nat. repeat split; cbn; lia. }
  destruct (raised (env (S (S (S (S (calls wc))))))) eqn:E5; lrun; lnorm.
  { repeat split. exists 5%nat. repeat split; cbn; lia. }
  destruct (raised (env (S (S (S (S (S (calls wc)))))))) eqn:E6; lrun; lnorm.
  { repeat split. exists 6%nat. repeat split; cbn; lia. }
  repeat split. exists 6%nat. repeat split; cbn; lia.
Qed.
